(** * oxylabs-sdk-python: the request clients and the option helpers

    A shallow embedding of [src/utils/utils.py] and
    [src/internal/internal.py], and the properties of the job workflow
    (submit, poll, fetch), of the blocking request executor, of the
    configuration resolver and of the parameter validators.

    Python values are modelled as follows.
    - Decoded JSON and the values passed around the clients: [json];
      Python's [None] is [JNull], [True] is [JBool true].
    - Keyword arguments and the configuration dict: [gmap string _].
    - Exceptions: the classes the code names in its [except] clauses, [exn].
    - [print]: an event of the trace carrying which statement printed.
    - The HTTP libraries ([requests], [aiohttp]) are an abstract transport:
      a state machine [send] answering each request with a reply. *)

From stdpp Require Import gmap strings list.
From Stdlib Require Import ZArith Lia Ascii ZifyNat.


Local Open Scope Z_scope.

(** ** Values *)

#[warnings="-register-all"]
Inductive json : Type :=
| JNull
| JBool (b : bool)
| JNum (n : Z)
| JStr (s : string)
| JArr (items : list json)
| JObj (fields : list (string * json)).

(** The exception classes that occur in the two files. *)
Inductive exn : Type :=
| requests_Timeout
| requests_HTTPError (status : Z) (body_text : string)
| requests_RequestException          (* any other class of requests.exceptions *)
| aiohttp_ClientResponseError (status : Z)
| aiohttp_ClientConnectionError
| asyncio_TimeoutError
| KeyError (key : string)
| TypeError
| ValueError (msg : string)
| AttributeError
| Exception_ (msg : string).         (* a plain [Exception(msg)] *)

(** What a call does: it returns, it raises, or (for the model of a
    [while True] loop only) the iteration budget ran out before it did
    either. *)
Inductive outcome (A : Type) : Type :=
| Returns (a : A)
| Raises (e : exn)
| OutOfFuel.
Arguments Returns {A} a.
Arguments Raises {A} e.
Arguments OutOfFuel {A}.

(** ** utils/utils.py *)

Module Utils.

(** [utils.defaults] is not part of the sources at hand: the two default
    durations are parameters. *)
Section Config.
Variables DEFAULT_TIMEOUT DEFAULT_POLL_INTERVAL : Z.

(** [prepare_config], called with keyword arguments. A keyword is
    absent, or present with the value [None], or present with a number. *)
Definition prepare_config (kwargs : gmap string (option Z)) : gmap string Z :=
  let config : gmap string Z := ∅ in
  let config :=
    match kwargs !! "timeout" with
    | Some v =>
        <["timeout" := match v with Some t => t | None => DEFAULT_TIMEOUT end]> config
    | None => config
    end in
  let config :=
    match kwargs !! "poll_interval" with
    | Some v =>
        <["poll_interval" :=
            match v with Some p => p | None => DEFAULT_POLL_INTERVAL end]> config
    | None => config
    end in
  config.
End Config.

(** [limit <= 0] and the like, on integers. *)
Definition check_limit_validity (limit : Z) : outcome unit :=
  if limit <=? 0 then Raises (ValueError "Limit parameter must be greater than 0")
  else Returns tt.

Definition check_pages_validity (pages : Z) : outcome unit :=
  if pages <=? 0 then Raises (ValueError "Pages parameter must be greater than 0")
  else Returns tt.

Definition check_start_page_validity (start_page : Z) : outcome unit :=
  if start_page <=? 0 then
    Raises (ValueError "Start page parameter must be greater than 0")
  else Returns tt.

(** Python's [sub in s] on strings: [sub] starts at some position of [s]. *)
Fixpoint str_in (sub s : string) : bool :=
  String.prefix sub s ||
  match s with
  | EmptyString => false
  | String _ s' => str_in sub s'
  end.

(** The two fields of [urllib.parse.urlparse]'s result that are read. *)
Record ParseResult : Type := { scheme : string; netloc : string }.

Definition is_empty (s : string) : bool :=
  match s with EmptyString => true | String _ _ => false end.

Section ValidateUrl.
(** [urllib.parse.urlparse] belongs to Python's library, not to the
    repository. *)
Variable urlparse : string → ParseResult.

Definition validate_url (input_url host : string) : outcome unit :=
  if is_empty input_url then Raises (ValueError "URL parameter is empty")
  else
    let parsed_url := urlparse input_url in
    if is_empty (scheme parsed_url) then Raises (ValueError "URL is missing scheme")
    else if is_empty (netloc parsed_url) then Raises (ValueError "URL is missing a host")
    else if negb (str_in host (netloc parsed_url)) then
      Raises (ValueError ("URL does not belong to " +:+ host))
    else Returns tt.
End ValidateUrl.

(** A small stand-in for [urlparse], enough for URLs of the shape
    [scheme://authority/rest]: the scheme is what precedes the first [:],
    the network location what follows [//] up to the next [/], [?] or [#]. *)
Fixpoint take_until (stop : Ascii.ascii → bool) (s : string) : string :=
  match s with
  | EmptyString => EmptyString
  | String c s' => if stop c then EmptyString else String c (take_until stop s')
  end.

Fixpoint drop_until (stop : Ascii.ascii → bool) (s : string) : string :=
  match s with
  | EmptyString => EmptyString
  | String c s' => if stop c then s else drop_until stop s'
  end.

Definition is_colon (c : Ascii.ascii) : bool := Ascii.eqb c ":"%char.
Definition ends_netloc (c : Ascii.ascii) : bool :=
  Ascii.eqb c "/"%char || Ascii.eqb c "?"%char || Ascii.eqb c "#"%char.

Definition urlparse_basic (url : string) : ParseResult :=
  match drop_until is_colon url with
  | String _ (String "/" (String "/" rest)) =>
      {| scheme := take_until is_colon url; netloc := take_until ends_netloc rest |}
  | String _ _ => {| scheme := take_until is_colon url; netloc := "" |}
  | EmptyString => {| scheme := ""; netloc := "" |}
  end.

(** The validators of the optional parameters. A parameter that may be
    left out is [None] or a string; [x and ...] goes on only for a string
    that is not empty. The lists of acceptable values are lists of
    strings, [x not in xs] is the membership test. *)
Fixpoint list_in (x : string) (xs : list string) : bool :=
  match xs with
  | [] => false
  | y :: ys => String.eqb x y || list_in x ys
  end.

Definition check_domain_validity (domain : option string)
    (acceptable_domains : list string) : outcome unit :=
  match domain with
  | Some d =>
      if negb (is_empty d) && negb (list_in d acceptable_domains) then
        Raises (ValueError ("Invalid domain parameter: " +:+ d))
      else Returns tt
  | None => Returns tt
  end.

Definition check_locale_validity (locale : option string)
    (acceptable_locales : list string) : outcome unit :=
  match locale with
  | Some l =>
      if negb (is_empty l) && negb (list_in l acceptable_locales) then
        Raises (ValueError ("Invalid locale parameter: " +:+ l))
      else Returns tt
  | None => Returns tt
  end.

(** [utils.constants] is not among the sources: the validity tests of its
    two classes are parameters. *)
Section Constants.
Variable is_user_agent_valid : string → bool.
Variable is_render_valid : string → bool.

Definition check_user_agent_validity (user_agent_type : string) : outcome unit :=
  if negb (is_user_agent_valid user_agent_type) then
    Raises (ValueError ("Invalid user agent parameter: " +:+ user_agent_type))
  else Returns tt.

Definition check_render_validity (render : option string) : outcome unit :=
  match render with
  | Some r =>
      if negb (is_empty r) && negb (is_render_valid r) then
        Raises (ValueError ("Invalid render parameter: " +:+ r))
      else Returns tt
  | None => Returns tt
  end.
End Constants.

End Utils.

(** ** internal/internal.py *)

Module Internal.

Inductive http_method : Type := POST | GET.

(** The three addresses the clients build. The f-strings are kept
    symbolic: [JobUrl b j] is [f"{b}/{j}"] and [ResultsUrl b j] is
    [f"{b}/{j}/results"], for whatever value [j] the submit step produced. *)
Inductive url : Type :=
| BaseUrl (base_url : string)
| JobUrl (base_url : string) (job_id : json)
| ResultsUrl (base_url : string) (job_id : json).

Record request : Type := {
  r_method : http_method;
  r_url : url;
  r_headers : list (string * string);
  r_json : option json;        (* the [json=] argument *)
  r_timeout : option Z         (* the [timeout=] argument *)
}.

(** A response object: its status, its text, and what [.json()] does,
    which is to return the decoded body or to raise. *)
Record response : Type := {
  status_code : Z;
  text : string;
  json_body : exn + json
}.

(** The transport either raises or hands back a response. *)
Inductive reply : Type :=
| Fails (e : exn)
| Replies (r : response).

(** One constructor per [print] statement shape. *)
Inductive message : Type :=
| Msg_unsupported_method (method : string)   (* "Unsupported method: ..." *)
| Msg_error_status (status : Z)              (* "Error occurred: <status code>" *)
| Msg_timeout (u : url)                      (* "Timeout error. The request to ..." *)
| Msg_http_error (e : exn)                   (* "HTTP error occurred: ..." *)
| Msg_text (t : string)                      (* print(response.text) *)
| Msg_error (e : exn)                        (* "Error occurred: ..." , "An error occurred: ..." *)
| Msg_connection_error (e : exn)             (* "Connection error occurred: ..." *)
| Msg_unexpected (e : exn).                  (* "Unexpected error processing your query: ..." *)

Inductive event : Type :=
| Sent (r : request)
| Slept (seconds : Z)
| Printed (m : message).

(** The two client classes after [__init__]. The header dict is computed
    once from the credentials and never changes; [session] tells whether
    [self.session] holds a session object or [None]. *)
Record Client : Type := {
  base_url : string;
  headers : list (string * string)
}.

Record ClientAsync : Type := {
  a_base_url : string;
  a_headers : list (string * string);
  session : bool
}.

(** [v[key]] on a decoded JSON value: the entry of an object, [KeyError]
    when the object has no such key, [TypeError] on anything that is not
    an object (a list or a string wants an integer index, the rest cannot
    be subscripted). *)
Fixpoint assoc (key : string) (fields : list (string * json)) : option json :=
  match fields with
  | [] => None
  | (k, v) :: rest => if String.eqb k key then Some v else assoc key rest
  end.

Definition subscript (v : json) (key : string) : exn + json :=
  match v with
  | JObj fields =>
      match assoc key fields with
      | Some x => inr x
      | None => inl (KeyError key)
      end
  | _ => inl TypeError
  end.

(** The requests the clients make. All carry [self.headers]; a POST
    carries the payload as its JSON body; the blocking client passes
    [config["timeout"]] along, the asynchronous one passes no timeout. *)
Definition requests_post (self : Client) (payload : json) (timeout : Z) : request :=
  {| r_method := POST; r_url := BaseUrl (base_url self); r_headers := headers self;
     r_json := Some payload; r_timeout := Some timeout |}.

Definition requests_get (self : Client) (timeout : Z) : request :=
  {| r_method := GET; r_url := BaseUrl (base_url self); r_headers := headers self;
     r_json := None; r_timeout := Some timeout |}.

Definition post_request (self : ClientAsync) (u : url) (payload : json) : request :=
  {| r_method := POST; r_url := u; r_headers := a_headers self;
     r_json := Some payload; r_timeout := None |}.

Definition get_request (self : ClientAsync) (u : url) : request :=
  {| r_method := GET; r_url := u; r_headers := a_headers self;
     r_json := None; r_timeout := None |}.

Section Programs.
Context {St : Type}.
(** The transport: from its current state and a request, a reply and
    its next state. *)
Variable send : St → request → reply * St.

(** A piece of client code: from the transport's state to an outcome,
    the transport's new state, and the events it caused, oldest first. *)
Definition prog (A : Type) : Type := St → outcome A * St * list event.

#[export] Instance prog_ret : MRet prog := λ A a s, (Returns a, s, []).
#[export] Instance prog_bind : MBind prog := λ A B f m s,
  match m s with
  | (Returns a, s1, t1) => let '(o, s2, t2) := f a s1 in (o, s2, t1 ++ t2)
  | (Raises e, s1, t1) => (Raises e, s1, t1)
  | (OutOfFuel, s1, t1) => (OutOfFuel, s1, t1)
  end.
#[export] Instance prog_throw : MThrow exn prog := λ A e s, (Raises e, s, []).

(** [try: body / except ...: handler]; a handler re-raises what no
    clause matches. *)
Definition try_except {A} (body : prog A) (handler : exn → prog A) : prog A :=
  λ s,
    match body s with
    | (Raises e, s1, t1) => let '(o, s2, t2) := handler e s1 in (o, s2, t1 ++ t2)
    | r => r
    end.

Definition out_of_fuel {A} : prog A := λ s, (OutOfFuel, s, []).
Definition emit (e : event) : prog unit := λ s, (Returns tt, s, [e]).
Definition print (m : message) : prog unit := emit (Printed m).
Definition sleep (seconds : Z) : prog unit := emit (Slept seconds).

(** Handing a request to the HTTP library. *)
Definition perform (r : request) : prog response :=
  λ s,
    match send s r with
    | (Fails e, s') => (Raises e, s', [Sent r])
    | (Replies resp, s') => (Returns resp, s', [Sent r])
    end.

(** [d[key]] on the configuration dict; [v[key]] on a decoded value. *)
Definition dict_getitem (d : gmap string Z) (key : string) : prog Z :=
  match d !! key with
  | Some v => mret v
  | None => mthrow (KeyError key)
  end.

Definition getitem (v : json) (key : string) : prog json :=
  match subscript v key with
  | inl e => mthrow e
  | inr x => mret x
  end.

(** [v == "literal"] *)
Definition eq_str (v : json) (literal : string) : bool :=
  match v with
  | JStr s => String.eqb s literal
  | _ => false
  end.

Definition response_json (r : response) : prog json :=
  match json_body r with
  | inl e => mthrow e
  | inr v => mret v
  end.

(** [requests]' [Response.raise_for_status]: statuses 400 to 599 raise. *)
Definition requests_raise_for_status (r : response) : prog unit :=
  if (400 <=? status_code r) && (status_code r <? 600)
  then mthrow (requests_HTTPError (status_code r) (text r))
  else mret tt.

(** [aiohttp]'s [ClientResponse.raise_for_status]: statuses from 400 raise. *)
Definition aiohttp_raise_for_status (r : response) : prog unit :=
  if 400 <=? status_code r
  then mthrow (aiohttp_ClientResponseError (status_code r))
  else mret tt.

(** *** class Client *)

(** The statements after the [if/elif/else] are reached from the POST
    and GET branches only, the [else] branch having returned: they are
    [finish]. [config["timeout"]] is evaluated when the call to
    [requests] is made, inside the [try]; none of the three [except]
    clauses catches its [KeyError]. *)
Definition req (self : Client) (payload : json) (method : string)
    (config : gmap string Z) : prog json :=
  let finish (response : response) : prog json :=
    requests_raise_for_status response;;
    if status_code response =? 200 then response_json response
    else print (Msg_error_status (status_code response));; mret JNull in
  try_except
    (if String.eqb method "POST" then
       timeout ← dict_getitem config "timeout";
       response ← perform (requests_post self payload timeout);
       finish response
     else if String.eqb method "GET" then
       timeout ← dict_getitem config "timeout";
       response ← perform (requests_get self timeout);
       finish response
     else
       print (Msg_unsupported_method method);; mret JNull)
    (λ e,
       match e with
       | requests_Timeout =>
           print (Msg_timeout (BaseUrl (base_url self)));; mret JNull
       | requests_HTTPError _ body_text =>
           print (Msg_http_error e);; print (Msg_text body_text);; mret JNull
       | requests_RequestException =>
           print (Msg_error e);; mret JNull
       | _ => mthrow e
       end).

(** *** class ClientAsync *)

(** [self.session.post(...)] and [self.session.get(...)]: without a
    session object the attribute access raises before anything is sent. *)
Definition session_post (self : ClientAsync) (u : url) (payload : json)
    : prog response :=
  if session self then
    perform (post_request self u payload)
  else mthrow AttributeError.

Definition session_get (self : ClientAsync) (u : url) : prog response :=
  if session self then
    perform (get_request self u)
  else mthrow AttributeError.

Definition get_job_id (self : ClientAsync) (payload : json) : prog json :=
  try_except
    (response ← session_post self (BaseUrl (a_base_url self)) payload;
     aiohttp_raise_for_status response;;
     data ← response_json response;
     getitem data "id")
    (λ e,
       match e with
       | aiohttp_ClientResponseError _ => print (Msg_http_error e)
       | aiohttp_ClientConnectionError => print (Msg_connection_error e)
       | asyncio_TimeoutError => print (Msg_timeout (BaseUrl (a_base_url self)))
       | _ => print (Msg_error e)
       end;;
       mret JNull).

(** One round of the [while True] loop is one unit of [fuel]. Inside the
    [try], the body either returns a value ([Some]) or falls through to
    the [sleep] ([None]); every handler returns [None], Python's. *)
Fixpoint poll_job_status (fuel : nat) (self : ClientAsync) (job_id : json)
    (poll_interval : Z) : prog json :=
  let job_status_url := JobUrl (a_base_url self) job_id in
  match fuel with
  | O => out_of_fuel
  | S fuel' =>
      returned ←
        try_except
          (response ← session_get self job_status_url;
           aiohttp_raise_for_status response;;
           job ← response_json response;
           status ← getitem job "status";
           if eq_str status "done" then mret (Some (JBool true))
           else if eq_str status "faulted" then mthrow (Exception_ "Job faulted")
           else mret None)
          (λ e,
             match e with
             | aiohttp_ClientResponseError _ => print (Msg_http_error e)
             | aiohttp_ClientConnectionError => print (Msg_connection_error e)
             | asyncio_TimeoutError => print (Msg_timeout job_status_url)
             | _ => print (Msg_unexpected e)
             end;;
             mret (Some JNull));
      match returned with
      | Some v => mret v
      | None => sleep poll_interval;; poll_job_status fuel' self job_id poll_interval
      end
  end.

Definition get_http_resp (self : ClientAsync) (job_id : json) : prog json :=
  let result_url := ResultsUrl (a_base_url self) job_id in
  try_except
    (response ← session_get self result_url;
     aiohttp_raise_for_status response;;
     response_json response)
    (λ e,
       match e with
       | aiohttp_ClientResponseError _ => print (Msg_http_error e)
       | aiohttp_ClientConnectionError => print (Msg_connection_error e)
       | asyncio_TimeoutError => print (Msg_timeout result_url)
       | _ => print (Msg_error e)
       end;;
       mret JNull).

(** [config["poll_interval"]] is looked up when the call to
    [poll_job_status] is made, after the submit step. *)
Definition execute_with_timeout (fuel : nat) (self : ClientAsync) (payload : json)
    (config : gmap string Z) : prog json :=
  job_id ← get_job_id self payload;
  poll_interval ← dict_getitem config "poll_interval";
  poll_job_status fuel self job_id poll_interval;;
  get_http_resp self job_id.

End Programs.

(** The requests of a trace, by phase, and the time spent asleep. *)
Definition is_submit (e : event) : bool :=
  match e with
  | Sent r => match r_method r with POST => true | GET => false end
  | _ => false
  end.

Definition is_poll (e : event) : bool :=
  match e with
  | Sent r => match r_method r, r_url r with GET, JobUrl _ _ => true | _, _ => false end
  | _ => false
  end.

Definition is_fetch (e : event) : bool :=
  match e with
  | Sent r => match r_method r, r_url r with GET, ResultsUrl _ _ => true | _, _ => false end
  | _ => false
  end.

Definition is_sleep (e : event) : bool :=
  match e with Slept _ => true | _ => false end.

Fixpoint count (p : event → bool) (t : list event) : nat :=
  match t with
  | [] => O
  | e :: t' => if p e then S (count p t') else count p t'
  end.

Fixpoint slept (t : list event) : Z :=
  match t with
  | [] => 0
  | Slept seconds :: t' => seconds + slept t'
  | _ :: t' => slept t'
  end.

End Internal.

(** ** internal/internal.py: the credentials and the clients' construction *)

Module Credentials.
Import Internal.
Local Open Scope nat_scope.

(** [ApiCredentials]: the two strings given to [__init__]. *)
Record ApiCredentials : Type := { username : string; password : string }.

(** [base64.b64encode], of Python's library: three bytes become four
    characters of the alphabet, six bits each; a last group of one or two
    bytes is padded with [=]. A string stands for its bytes, which is what
    [credentials.encode()] makes of it. *)
Definition b64_alphabet : string :=
  "ABCDEFGHIJKLMNOPQRSTUVWXYZabcdefghijklmnopqrstuvwxyz0123456789+/".

Definition b64_char (i : nat) : ascii :=
  match String.get i b64_alphabet with
  | Some c => c
  | None => "="%char
  end.

Definition chunk3 (a b c : ascii) : string :=
  let x := nat_of_ascii a in
  let y := nat_of_ascii b in
  let z := nat_of_ascii c in
  String (b64_char (x / 4))
    (String (b64_char (x mod 4 * 16 + y / 16))
       (String (b64_char (y mod 16 * 4 + z / 64))
          (String (b64_char (z mod 64)) EmptyString))).

Definition chunk2 (a b : ascii) : string :=
  let x := nat_of_ascii a in
  let y := nat_of_ascii b in
  String (b64_char (x / 4))
    (String (b64_char (x mod 4 * 16 + y / 16))
       (String (b64_char (y mod 16 * 4)) "=")).

Definition chunk1 (a : ascii) : string :=
  let x := nat_of_ascii a in
  String (b64_char (x / 4)) (String (b64_char (x mod 4 * 16)) "==").

Fixpoint b64encode (s : string) : string :=
  match s with
  | EmptyString => EmptyString
  | String a EmptyString => chunk1 a
  | String a (String b EmptyString) => chunk2 a b
  | String a (String b (String c rest)) => chunk3 a b c +:+ b64encode rest
  end.

Definition get_encoded_credentials (self : ApiCredentials) : string :=
  b64encode (username self +:+ ":" +:+ password self).

(** The decoding that undoes [b64encode], to state what a token holds. *)
Fixpoint index_of (c : ascii) (s : string) : option nat :=
  match s with
  | EmptyString => None
  | String d s' => if Ascii.eqb c d then Some 0 else S <$> index_of c s'
  end.

Definition b64_index (c : ascii) : option nat := index_of c b64_alphabet.

Definition is_pad (c : ascii) : bool := Ascii.eqb c "="%char.

Fixpoint b64decode (s : string) : option string :=
  match s with
  | EmptyString => Some EmptyString
  | String c0 (String c1 (String c2 (String c3 rest))) =>
      i0 ← b64_index c0;
      i1 ← b64_index c1;
      let a := ascii_of_nat (i0 * 4 + i1 / 16) in
      if is_pad c3 then
        if negb (match rest with EmptyString => true | _ => false end) then None
        else if is_pad c2 then Some (String a EmptyString)
        else
          i2 ← b64_index c2;
          Some (String a (String (ascii_of_nat (i1 mod 16 * 16 + i2 / 4)) EmptyString))
      else
        i2 ← b64_index c2;
        i3 ← b64_index c3;
        tail ← b64decode rest;
        Some (String a
                (String (ascii_of_nat (i1 mod 16 * 16 + i2 / 4))
                   (String (ascii_of_nat (i2 mod 4 * 64 + i3)) tail)))
  | _ => None
  end.

(** [__init__] of both clients: the address, and the header dict built
    from the credentials; the asynchronous client starts without a session. *)
Definition make_headers (api_credentials : ApiCredentials) : list (string * string) :=
  [("Content-Type", "application/json");
   ("Authorization", "Basic " +:+ get_encoded_credentials api_credentials)].

Definition Client_init (base_url : string) (api_credentials : ApiCredentials) : Client :=
  {| Internal.base_url := base_url; headers := make_headers api_credentials |}.

Definition ClientAsync_init (base_url : string) (api_credentials : ApiCredentials)
    : ClientAsync :=
  {| a_base_url := base_url; a_headers := make_headers api_credentials; session := false |}.

End Credentials.

(** ** internal/internal.py: the session of the asynchronous client

    [self.session] is [None] or one of the session objects made so far,
    numbered in the order they were made; a session object is open until
    it is closed, by the client or by whoever else holds it. *)

Module Session.

Record state : Type := {
  held : option nat;       (* self.session *)
  live : gset nat;         (* the session objects not closed yet *)
  made : nat               (* how many session objects were made *)
}.

(** After [__init__]. *)
Definition initial : state := {| held := None; live := ∅; made := O |}.

(** [self.session = aiohttp.ClientSession()] *)
Definition new_session (st : state) : state :=
  {| held := Some (made st); live := {[made st]} ∪ live st; made := S (made st) |}.

(** [if self.session is None or self.session.closed: ...] *)
Definition ensure_session (st : state) : state :=
  match held st with
  | None => new_session st
  | Some i => if bool_decide (i ∈ live st) then st else new_session st
  end.

(** [if self.session: await self.session.close(); self.session = None] *)
Definition close (st : state) : state :=
  match held st with
  | None => st
  | Some i => {| held := None; live := live st ∖ {[i]}; made := made st |}
  end.

Definition aenter (st : state) : state := ensure_session st.
Definition aexit (st : state) : state := close st.

(** What can happen to a client: its own two methods, and a session
    object being closed from outside ([client.session.close()]). *)
Inductive op : Type :=
| Ensure
| Close
| ClosedOutside (i : nat).

Definition step (st : state) (o : op) : state :=
  match o with
  | Ensure => ensure_session st
  | Close => close st
  | ClosedOutside i => {| held := held st; live := live st ∖ {[i]}; made := made st |}
  end.

Definition run (ops : list op) (st : state) : state := foldl step st ops.

(** The session can be used: there is one and it is open. *)
Definition usable (st : state) : Prop :=
  ∃ i, held st = Some i ∧ i ∈ live st.

End Session.

(** ** Transports for the examples

    A scripted transport in the manner of a test double: one reply for the
    submit request, a list of replies for the successive status requests
    (and one reply for all those after the list is used up), one reply for
    the results request. Its state is the list of status replies left. *)

Module Mock.
Import Internal.

Record script : Type := {
  on_submit : reply;
  on_poll : list reply;
  on_poll_after : reply;
  on_fetch : reply
}.

Definition send (m : script) (left : list reply) (r : request) : reply * list reply :=
  match r_method r, r_url r with
  | POST, _ => (on_submit m, left)
  | GET, JobUrl _ _ =>
      match left with
      | rep :: rest => (rep, rest)
      | [] => (on_poll_after m, [])
      end
  | GET, ResultsUrl _ _ => (on_fetch m, left)
  | GET, BaseUrl _ => (on_submit m, left)
  end.

Definition ok (body : json) : reply :=
  Replies {| status_code := 200; text := ""; json_body := inr body |}.

Definition status_reply (s : string) : reply := ok (JObj [("status", JStr s)]).
Definition pending : reply := status_reply "pending".
Definition finished : reply := status_reply "done".
Definition faulted : reply := status_reply "faulted".
Definition job_created (job_id : string) : reply := ok (JObj [("id", JStr job_id)]).
Definition http_500 : reply :=
  Replies {| status_code := 500; text := "Internal Server Error";
             json_body := inl (ValueError "Expecting value") |}.

Definition client : ClientAsync :=
  {| a_base_url := "https://realtime.example/v1/queries";
     a_headers := [("Content-Type", "application/json")];
     session := true |}.

Definition sync_client : Client :=
  {| base_url := "https://realtime.example/v1/queries";
     headers := [("Content-Type", "application/json")] |}.

Definition config (timeout poll_interval : Z) : gmap string Z :=
  <["poll_interval" := poll_interval]> (<["timeout" := timeout]> ∅).

Definition payload : json := JObj [("source", JStr "universal"); ("query", JStr "x")].
Definition result_42 : json := JObj [("result", JNum 42)].

Definition http_404 : reply :=
  Replies {| status_code := 404; text := "Not Found";
             json_body := inl (ValueError "Expecting value") |}.
Definition created_201 : reply :=
  Replies {| status_code := 201; text := "{}"; json_body := inr (JObj []) |}.

(** The scripts of the examples. *)
Definition three_polls : script :=
  {| on_submit := job_created "abc"; on_poll := [pending; pending; finished];
     on_poll_after := pending; on_fetch := ok result_42 |}.

Definition faulted_job : script :=
  {| on_submit := job_created "abc"; on_poll := [faulted];
     on_poll_after := faulted; on_fetch := ok result_42 |}.

Definition submit_500 : script :=
  {| on_submit := http_500; on_poll := [];
     on_poll_after := http_404; on_fetch := http_404 |}.

Definition broken_poll : script :=
  {| on_submit := job_created "abc";
     on_poll := [pending; Fails aiohttp_ClientConnectionError];
     on_poll_after := pending; on_fetch := ok result_42 |}.

Definition never_finishes : script :=
  {| on_submit := job_created "abc"; on_poll := [];
     on_poll_after := pending; on_fetch := ok result_42 |}.

Definition answers_201 : script :=
  {| on_submit := created_201; on_poll := [];
     on_poll_after := pending; on_fetch := ok result_42 |}.

(** Running an asynchronous job from the start of a script. *)
Definition run (m : script) (fuel : nat) (cfg : gmap string Z)
    : outcome json * list reply * list event :=
  execute_with_timeout (send m) fuel client payload cfg (on_poll m).

End Mock.

(** * Properties *)

(** ** The option helpers *)

Module UtilsFacts.
Import Utils.

Lemma append_cons (c : ascii) (p rest : string) :
  String c p +:+ rest = String c (p +:+ rest).
Proof. reflexivity. Qed.

Lemma prefix_append (p s : string) :
  String.prefix p s = true ↔ ∃ rest, s = p +:+ rest.
Proof.
  revert p. induction s as [| b s IH]; intros [| a p]; simpl.
  - split; [by exists "" | done].
  - split; [done | by intros [rest ?]].
  - split; [by exists (String b s) | done].
  - destruct (Ascii.ascii_dec a b) as [-> | Hne].
    + rewrite IH. split; intros [rest Hrest]; exists rest; rewrite append_cons in *;
        congruence.
    + split; [done | intros [rest Hrest]; rewrite append_cons in Hrest; congruence].
Qed.

(** [str_in] is containment: [sub] occurs somewhere inside [s]. *)
Lemma str_in_occurs (sub s : string) :
  str_in sub s = true ↔ ∃ before after, s = before +:+ sub +:+ after.
Proof.
  induction s as [| c s IH]; cbn [str_in]; rewrite orb_true_iff, prefix_append.
  - split.
    + intros [[rest ->] | ?]; [by exists "", rest | done].
    + intros ([| ? ?] & after & H); [left; by exists after | done].
  - rewrite IH. split.
    + intros [[rest ->] | (before & after & ->)]; [by exists "", rest |].
      by exists (String c before), after.
    + intros ([| c' before] & after & H); [left; by exists after |].
      right. exists before, after. rewrite append_cons in H. congruence.
Qed.

Lemma is_empty_false (s : string) : is_empty s = false ↔ s ≠ "".
Proof. by destruct s. Qed.

Section ValidateUrl.
Variable urlparse : string → ParseResult.
(** Of [urlparse], only this is used: the empty string has no scheme. *)
Hypothesis urlparse_empty : scheme (urlparse "") = "".

(** C9. The host check of [validate_url] is containment, not equality:
    a URL whose parse has a scheme and a network location is accepted
    exactly when the expected host occurs somewhere inside the network
    location, so also when the location is another domain that merely
    contains the host string. *)
Theorem validate_url_host_is_containment (input_url host : string) :
  scheme (urlparse input_url) ≠ "" →
  netloc (urlparse input_url) ≠ "" →
  validate_url urlparse input_url host = Returns tt
  ↔ ∃ before after, netloc (urlparse input_url) = before +:+ host +:+ after.
Proof.
  intros Hscheme Hnetloc. rewrite <- str_in_occurs. unfold validate_url.
  assert (is_empty input_url = false) as ->.
  { apply is_empty_false. intros ->. by apply Hscheme. }
  apply is_empty_false in Hscheme, Hnetloc. rewrite Hscheme, Hnetloc.
  by destruct (str_in host _).
Qed.
End ValidateUrl.

(** C8. Each of the three validators raises its own [ValueError] on every
    value that is zero or negative and returns normally on every positive
    value; the three messages differ from one another. The validators are
    functions of the value alone: they have no transport to call. *)
Theorem validators_reject_exactly_nonpositive (v : Z) :
  (v ≤ 0 →
     check_limit_validity v = Raises (ValueError "Limit parameter must be greater than 0")
     ∧ check_pages_validity v = Raises (ValueError "Pages parameter must be greater than 0")
     ∧ check_start_page_validity v
       = Raises (ValueError "Start page parameter must be greater than 0"))
  ∧ (0 < v →
     check_limit_validity v = Returns tt
     ∧ check_pages_validity v = Returns tt
     ∧ check_start_page_validity v = Returns tt)
  ∧ ("Limit parameter must be greater than 0" ≠ "Pages parameter must be greater than 0"
     ∧ "Limit parameter must be greater than 0" ≠ "Start page parameter must be greater than 0"
     ∧ "Pages parameter must be greater than 0" ≠ "Start page parameter must be greater than 0").
Proof.
  unfold check_limit_validity, check_pages_validity, check_start_page_validity.
  destruct (Z.leb_spec v 0); repeat split; intros; (lia || done).
Qed.

Definition or_default (d : Z) (v : option Z) : Z :=
  match v with Some x => x | None => d end.

Section Config.
Variables DEFAULT_TIMEOUT DEFAULT_POLL_INTERVAL : Z.

Lemma prepare_config_lookup (kwargs : gmap string (option Z)) :
  let config := prepare_config DEFAULT_TIMEOUT DEFAULT_POLL_INTERVAL kwargs in
  config !! "timeout" = or_default DEFAULT_TIMEOUT <$> kwargs !! "timeout"
  ∧ config !! "poll_interval"
    = or_default DEFAULT_POLL_INTERVAL <$> kwargs !! "poll_interval"
  ∧ (∀ key, key ≠ "timeout" → key ≠ "poll_interval" → config !! key = None).
Proof.
  unfold prepare_config.
  destruct (kwargs !! "timeout") as [t |], (kwargs !! "poll_interval") as [p |];
    repeat split; intros; by simplify_map_eq.
Qed.

(** C5, as the code has it. For each of the two keys, the resolved
    configuration holds the caller's value when the key was passed with
    a value, the default when the key was passed as [None], and nothing
    when the key was not passed; it holds no other key. So both defaults
    come out when both keys are passed as [None], and a timeout [T] with
    the default poll interval when the poll interval is passed as [None]
    next to [timeout = T]. *)
Theorem prepare_config_defaults_for_None (kwargs : gmap string (option Z)) :
  prepare_config DEFAULT_TIMEOUT DEFAULT_POLL_INTERVAL kwargs !! "timeout"
    = or_default DEFAULT_TIMEOUT <$> kwargs !! "timeout"
  ∧ prepare_config DEFAULT_TIMEOUT DEFAULT_POLL_INTERVAL kwargs !! "poll_interval"
    = or_default DEFAULT_POLL_INTERVAL <$> kwargs !! "poll_interval"
  ∧ (∀ key, key ≠ "timeout" → key ≠ "poll_interval" →
       prepare_config DEFAULT_TIMEOUT DEFAULT_POLL_INTERVAL kwargs !! key = None)
  ∧ prepare_config DEFAULT_TIMEOUT DEFAULT_POLL_INTERVAL
      (<["poll_interval" := None]> {["timeout" := None]})
    = <["poll_interval" := DEFAULT_POLL_INTERVAL]> {["timeout" := DEFAULT_TIMEOUT]}
  ∧ (∀ T, prepare_config DEFAULT_TIMEOUT DEFAULT_POLL_INTERVAL
            (<["poll_interval" := None]> {["timeout" := Some T]})
          = <["poll_interval" := DEFAULT_POLL_INTERVAL]> {["timeout" := T]}).
Proof.
  destruct (prepare_config_lookup kwargs) as (Ht & Hp & Hother).
  repeat split; trivial.
Qed.
End Config.

End UtilsFacts.

(** ** The job workflow of the asynchronous client *)

Module JobWorkflow.
Import Internal.

(** *** What a reply amounts to

    A request fails at the transport level when the library raises
    (connection error, timeout), when the status is an error status, or
    when the body cannot be decoded. *)
Inductive transport_failure : reply → exn → Prop :=
| failure_raised e : transport_failure (Fails e) e
| failure_status r :
    400 ≤ status_code r →
    transport_failure (Replies r) (aiohttp_ClientResponseError (status_code r))
| failure_body r e :
    status_code r < 400 → json_body r = inl e → transport_failure (Replies r) e.

(** Otherwise the reply answers with a decoded body. *)
Inductive answers : reply → json → Prop :=
| answers_intro r v : status_code r < 400 → json_body r = inr v → answers (Replies r) v.

(** The submit step fails on a transport failure or on a body without
    an ["id"]; it gives a job id otherwise. *)
Inductive submit_fails : reply → exn → Prop :=
| submit_transport rep e : transport_failure rep e → submit_fails rep e
| submit_no_id rep data e :
    answers rep data → subscript data "id" = inl e → submit_fails rep e.

Inductive submit_gives : reply → json → Prop :=
| submit_gives_intro rep data job_id :
    answers rep data → subscript data "id" = inr job_id → submit_gives rep job_id.

(** A poll reports the value of the body's ["status"]; it fails on a
    transport failure or on a body without one. *)
Inductive poll_reports : reply → json → Prop :=
| poll_reports_intro rep job status :
    answers rep job → subscript job "status" = inr status → poll_reports rep status.

Inductive poll_fails : reply → exn → Prop :=
| poll_transport rep e : transport_failure rep e → poll_fails rep e
| poll_no_status rep job e :
    answers rep job → subscript job "status" = inl e → poll_fails rep e.

(** Every status other than the two the loop looks for. *)
Definition non_terminal (status : json) : Prop :=
  eq_str status "done" = false ∧ eq_str status "faulted" = false.

Section Workflow.
Context {St : Type}.
Variable send : St → request → reply * St.
Variable self : ClientAsync.
Hypothesis has_session : session self = true.

(** The three requests of one job. *)
Definition submit_request payload := post_request self (BaseUrl (a_base_url self)) payload.
Definition poll_request job_id := get_request self (JobUrl (a_base_url self) job_id).
Definition fetch_request job_id := get_request self (ResultsUrl (a_base_url self) job_id).

(** What the first three statements of each [try] body amount to. *)
Definition decode (rep : reply) : exn + json :=
  match rep with
  | Fails e => inl e
  | Replies r =>
      if 400 <=? status_code r then inl (aiohttp_ClientResponseError (status_code r))
      else json_body r
  end.

(** The message each handler prints for an exception. *)
Definition submit_message (e : exn) : message :=
  match e with
  | aiohttp_ClientResponseError _ => Msg_http_error e
  | aiohttp_ClientConnectionError => Msg_connection_error e
  | asyncio_TimeoutError => Msg_timeout (BaseUrl (a_base_url self))
  | _ => Msg_error e
  end.

Definition poll_message (job_id : json) (e : exn) : message :=
  match e with
  | aiohttp_ClientResponseError _ => Msg_http_error e
  | aiohttp_ClientConnectionError => Msg_connection_error e
  | asyncio_TimeoutError => Msg_timeout (JobUrl (a_base_url self) job_id)
  | _ => Msg_unexpected e
  end.

Definition fetch_message (job_id : json) (e : exn) : message :=
  match e with
  | aiohttp_ClientResponseError _ => Msg_http_error e
  | aiohttp_ClientConnectionError => Msg_connection_error e
  | asyncio_TimeoutError => Msg_timeout (ResultsUrl (a_base_url self) job_id)
  | _ => Msg_error e
  end.

(** One more round of the loop in front of what follows it. *)
Definition after_round {A} (r : request) (pause : Z)
    (rest : outcome A * St * list event) : outcome A * St * list event :=
  let '(o, s, t) := rest in (o, s, Sent r :: Slept pause :: t).

(** [keeps_polling job_id s n s']: from state [s] the transport answers
    the next [n] status requests with a non-terminal status, and is
    then in state [s']. *)
Inductive keeps_polling (job_id : json) : St → nat → St → Prop :=
| keeps_polling_O s : keeps_polling job_id s 0 s
| keeps_polling_S s rep s1 status n s2 :
    send s (poll_request job_id) = (rep, s1) →
    poll_reports rep status →
    non_terminal status →
    keeps_polling job_id s1 n s2 →
    keeps_polling job_id s (S n) s2.

(** The events of [n] rounds that found the job unfinished. *)
Fixpoint rounds (job_id : json) (poll_interval : Z) (n : nat) : list event :=
  match n with
  | O => []
  | S n' => Sent (poll_request job_id) :: Slept poll_interval :: rounds job_id poll_interval n'
  end.

(** *** The three steps, unfolded *)

Ltac unfold_prog :=
  cbv [mbind mret mthrow prog_bind prog_ret prog_throw try_except
       session_post session_get perform print sleep emit getitem
       response_json aiohttp_raise_for_status out_of_fuel];
  unfold submit_request, poll_request, fetch_request in *.

Lemma decode_failure rep e : transport_failure rep e → decode rep = inl e.
Proof.
  inversion 1; subst; simpl; trivial.
  - destruct (Z.leb_spec 400 (status_code r)); [trivial | lia].
  - destruct (Z.leb_spec 400 (status_code r)); [lia | trivial].
Qed.

Lemma decode_answers rep v : answers rep v → decode rep = inr v.
Proof.
  inversion 1; subst; simpl.
  destruct (Z.leb_spec 400 (status_code r)); [lia | trivial].
Qed.

Lemma get_job_id_eq payload s rep s' :
  send s (submit_request payload) = (rep, s') →
  get_job_id send self payload s =
    match decode rep with
    | inl e => (Returns JNull, s', [Sent (submit_request payload); Printed (submit_message e)])
    | inr data =>
        match subscript data "id" with
        | inl e =>
            (Returns JNull, s', [Sent (submit_request payload); Printed (submit_message e)])
        | inr job_id => (Returns job_id, s', [Sent (submit_request payload)])
        end
    end.
Proof.
  intros Hsend. unfold get_job_id. unfold_prog. rewrite has_session, Hsend.
  destruct rep as [e | resp]; simpl; [destruct e; reflexivity |].
  destruct (400 <=? status_code resp); [reflexivity |].
  destruct (json_body resp) as [e | v]; [destruct e; reflexivity |].
  destruct (subscript v "id") as [e | x]; [destruct e; reflexivity | reflexivity].
Qed.

Lemma get_http_resp_eq job_id s rep s' :
  send s (fetch_request job_id) = (rep, s') →
  get_http_resp send self job_id s =
    match decode rep with
    | inl e =>
        (Returns JNull, s', [Sent (fetch_request job_id); Printed (fetch_message job_id e)])
    | inr v => (Returns v, s', [Sent (fetch_request job_id)])
    end.
Proof.
  intros Hsend. unfold get_http_resp. unfold_prog. rewrite has_session, Hsend.
  destruct rep as [e | resp]; simpl; [destruct e; reflexivity |].
  destruct (400 <=? status_code resp); [reflexivity |].
  destruct (json_body resp) as [e | v]; [destruct e; reflexivity | reflexivity].
Qed.

Lemma poll_job_status_eq fuel job_id poll_interval s rep s' :
  send s (poll_request job_id) = (rep, s') →
  poll_job_status send (S fuel) self job_id poll_interval s =
    let failed e :=
      (Returns JNull, s', [Sent (poll_request job_id); Printed (poll_message job_id e)]) in
    match decode rep with
    | inl e => failed e
    | inr job =>
        match subscript job "status" with
        | inl e => failed e
        | inr status =>
            if eq_str status "done" then
              (Returns (JBool true), s', [Sent (poll_request job_id)])
            else if eq_str status "faulted" then failed (Exception_ "Job faulted")
            else
              after_round (poll_request job_id) poll_interval
                (poll_job_status send fuel self job_id poll_interval s')
        end
    end.
Proof.
  intros Hsend. cbn [poll_job_status]. unfold_prog. rewrite has_session, Hsend.
  destruct rep as [e | resp]; simpl; [destruct e; reflexivity |].
  destruct (400 <=? status_code resp); [reflexivity |].
  destruct (json_body resp) as [e | v]; [destruct e; reflexivity |].
  destruct (subscript v "status") as [e | x]; [destruct e; reflexivity |].
  destruct (eq_str x "done"); [reflexivity |].
  destruct (eq_str x "faulted"); [reflexivity |].
  unfold after_round.
  destruct (poll_job_status send fuel self job_id poll_interval s') as [[o s2] t].
  destruct o; reflexivity.
Qed.

Lemma decode_reports rep status :
  poll_reports rep status →
  ∃ job, decode rep = inr job ∧ subscript job "status" = inr status.
Proof. intros [? job ? Hans Hsub]. exists job. auto using decode_answers. Qed.

Lemma poll_job_status_rounds job_id poll_interval s n s1 :
  keeps_polling job_id s n s1 →
  ∀ fuel,
    poll_job_status send (n + fuel) self job_id poll_interval s =
      let '(o, s2, t) := poll_job_status send fuel self job_id poll_interval s1 in
      (o, s2, rounds job_id poll_interval n ++ t).
Proof.
  induction 1 as [s | s rep s1 status n s2 Hsend Hrep [Hd Hf] _ IH]; intros fuel.
  - simpl. destruct (poll_job_status _ _ _ _ _ _) as [[o s2] t]. reflexivity.
  - destruct (decode_reports _ _ Hrep) as (job & Hdec & Hsub).
    change (S n + fuel)%nat with (S (n + fuel)).
    rewrite (poll_job_status_eq _ _ _ _ _ _ Hsend). cbv zeta.
    rewrite Hdec, Hsub, Hd, Hf, IH. unfold after_round.
    destruct (poll_job_status _ _ _ _ _ _) as [[o s3] t]. reflexivity.
Qed.

Lemma poll_job_status_done fuel job_id poll_interval s rep s' :
  send s (poll_request job_id) = (rep, s') →
  poll_reports rep (JStr "done") →
  poll_job_status send (S fuel) self job_id poll_interval s =
    (Returns (JBool true), s', [Sent (poll_request job_id)]).
Proof.
  intros Hsend Hrep. destruct (decode_reports _ _ Hrep) as (job & Hdec & Hsub).
  rewrite (poll_job_status_eq _ _ _ _ _ _ Hsend). cbv zeta.
  rewrite Hdec, Hsub. reflexivity.
Qed.

Lemma poll_job_status_faulted fuel job_id poll_interval s rep s' :
  send s (poll_request job_id) = (rep, s') →
  poll_reports rep (JStr "faulted") →
  poll_job_status send (S fuel) self job_id poll_interval s =
    (Returns JNull, s',
     [Sent (poll_request job_id); Printed (Msg_unexpected (Exception_ "Job faulted"))]).
Proof.
  intros Hsend Hrep. destruct (decode_reports _ _ Hrep) as (job & Hdec & Hsub).
  rewrite (poll_job_status_eq _ _ _ _ _ _ Hsend). cbv zeta.
  rewrite Hdec, Hsub. reflexivity.
Qed.

Lemma poll_job_status_fails fuel job_id poll_interval s rep s' e :
  send s (poll_request job_id) = (rep, s') →
  poll_fails rep e →
  poll_job_status send (S fuel) self job_id poll_interval s =
    (Returns JNull, s', [Sent (poll_request job_id); Printed (poll_message job_id e)]).
Proof.
  intros Hsend Hrep. rewrite (poll_job_status_eq _ _ _ _ _ _ Hsend). cbv zeta.
  destruct Hrep as [rep e Hf | rep job e Hans Hsub].
  - rewrite (decode_failure _ _ Hf). reflexivity.
  - rewrite (decode_answers _ _ Hans), Hsub. reflexivity.
Qed.

Lemma get_job_id_gives payload s rep s' job_id :
  send s (submit_request payload) = (rep, s') →
  submit_gives rep job_id →
  get_job_id send self payload s = (Returns job_id, s', [Sent (submit_request payload)]).
Proof.
  intros Hsend Hrep. rewrite (get_job_id_eq _ _ _ _ Hsend).
  destruct Hrep as [rep data job_id Hans Hsub].
  rewrite (decode_answers _ _ Hans), Hsub. reflexivity.
Qed.

Lemma get_job_id_fails payload s rep s' e :
  send s (submit_request payload) = (rep, s') →
  submit_fails rep e →
  get_job_id send self payload s =
    (Returns JNull, s', [Sent (submit_request payload); Printed (submit_message e)]).
Proof.
  intros Hsend Hrep. rewrite (get_job_id_eq _ _ _ _ Hsend).
  destruct Hrep as [rep e Hf | rep job e Hans Hsub].
  - rewrite (decode_failure _ _ Hf). reflexivity.
  - rewrite (decode_answers _ _ Hans), Hsub. reflexivity.
Qed.

(** The results request goes out whatever the reply will be, and
    [get_http_resp] always returns. *)
Lemma get_http_resp_sends job_id s :
  ∃ result s' t,
    get_http_resp send self job_id s = (Returns result, s', Sent (fetch_request job_id) :: t).
Proof.
  destruct (send s (fetch_request job_id)) as [rep s'] eqn:Hsend.
  rewrite (get_http_resp_eq _ _ _ _ Hsend).
  destruct (decode rep); eauto.
Qed.

Lemma get_http_resp_answers job_id s rep s' v :
  send s (fetch_request job_id) = (rep, s') →
  answers rep v →
  get_http_resp send self job_id s = (Returns v, s', [Sent (fetch_request job_id)]).
Proof.
  intros Hsend Hans.
  rewrite (get_http_resp_eq _ _ _ _ Hsend), (decode_answers _ _ Hans). reflexivity.
Qed.

(** [execute_with_timeout], one phase after the other. *)
Lemma execute_with_timeout_eq fuel payload config poll_interval s0 job_id s1 t1 :
  config !! "poll_interval" = Some poll_interval →
  get_job_id send self payload s0 = (Returns job_id, s1, t1) →
  execute_with_timeout send fuel self payload config s0 =
    match poll_job_status send fuel self job_id poll_interval s1 with
    | (Returns _, s2, t2) =>
        let '(o, s3, t3) := get_http_resp send self job_id s2 in (o, s3, t1 ++ t2 ++ t3)
    | (Raises e, s2, t2) => (Raises e, s2, t1 ++ t2)
    | (OutOfFuel, s2, t2) => (OutOfFuel, s2, t1 ++ t2)
    end.
Proof.
  intros Hcfg Hsub. unfold execute_with_timeout, dict_getitem.
  cbv [mbind mret mthrow prog_bind prog_ret prog_throw]. rewrite Hsub, Hcfg.
  destruct (poll_job_status _ _ _ _ _ _) as [[[v | e |] s2] t2]; simpl; trivial.
  destruct (get_http_resp _ _ _ _) as [[o s3] t3]. reflexivity.
Qed.

Lemma rounds_polls job_id poll_interval n :
  count is_poll (rounds job_id poll_interval n) = n
  ∧ count is_fetch (rounds job_id poll_interval n) = 0%nat
  ∧ count is_sleep (rounds job_id poll_interval n) = n
  ∧ slept (rounds job_id poll_interval n) = Z.of_nat n * poll_interval.
Proof.
  induction n as [| n (IH1 & IH2 & IH3 & IH4)]; [easy |].
  cbn [rounds]. repeat split.
  - cbn. f_equal. exact IH1.
  - cbn. exact IH2.
  - cbn. f_equal. exact IH3.
  - cbn [slept]. rewrite IH4. lia.
Qed.

(** *** The workflow

    One call of [execute_with_timeout] from state [s0], with a
    configuration that has a poll interval, and the transport's reply to
    the submit request. *)
Section Run.
Variables (payload : json) (config : gmap string Z) (poll_interval : Z).
Hypothesis has_interval : config !! "poll_interval" = Some poll_interval.
Variables (s0 s1 : St) (submitted : reply) (job_id : json).
Hypothesis submit_sent : send s0 (submit_request payload) = (submitted, s1).

(** C6. When submit returns a job id, the first two polls report
    "pending", the third reports "done" and the results request
    answers with a payload, [execute_with_timeout] returns that
    payload and its trace is exactly: one submit, a poll, a wait, a
    poll, a wait, a poll, one fetch, in this order. Three rounds of
    the loop suffice. *)
Theorem job_done_after_three_polls r1 s2 r2 s3 r3 s4 r4 s5 P fuel :
  submit_gives submitted job_id →
  send s1 (poll_request job_id) = (r1, s2) → poll_reports r1 (JStr "pending") →
  send s2 (poll_request job_id) = (r2, s3) → poll_reports r2 (JStr "pending") →
  send s3 (poll_request job_id) = (r3, s4) → poll_reports r3 (JStr "done") →
  send s4 (fetch_request job_id) = (r4, s5) → answers r4 P →
  (3 ≤ fuel)%nat →
  execute_with_timeout send fuel self payload config s0 =
    (Returns P, s5,
     [Sent (submit_request payload);
      Sent (poll_request job_id); Slept poll_interval;
      Sent (poll_request job_id); Slept poll_interval;
      Sent (poll_request job_id);
      Sent (fetch_request job_id)]).
Proof.
  intros Hid H1 P1 H2 P2 H3 P3 H4 P4 Hfuel.
  rewrite (execute_with_timeout_eq _ _ _ _ _ _ _ _ has_interval
             (get_job_id_gives _ _ _ _ _ submit_sent Hid)).
  assert (Hk : keeps_polling job_id s1 2 s3).
  { repeat (econstructor; [eassumption | eassumption | split; reflexivity |]).
    constructor. }
  destruct fuel as [| [| [| fuel]]]; try lia.
  change (S (S (S fuel))) with (2 + S fuel)%nat.
  rewrite (poll_job_status_rounds _ _ _ _ _ Hk),
    (poll_job_status_done _ _ _ _ _ _ H3 P3),
    (get_http_resp_answers _ _ _ _ _ H4 P4).
  reflexivity.
Qed.

(** C1, on the code. A poll that reports "faulted", after any number
    of unfinished polls, ends the polling: the [raise] is caught by
    the loop's own last [except] clause, which prints and returns.
    [execute_with_timeout] does not look at what the poll returned:
    it sends the results request for the faulted job and returns
    whatever [get_http_resp] returns. *)
Theorem faulted_job_is_still_fetched n s2 rep s3 fuel :
  submit_gives submitted job_id →
  keeps_polling job_id s1 n s2 →
  send s2 (poll_request job_id) = (rep, s3) →
  poll_reports rep (JStr "faulted") →
  (n < fuel)%nat →
  ∃ result s4 t,
    get_http_resp send self job_id s3 =
      (Returns result, s4, Sent (fetch_request job_id) :: t)
    ∧ execute_with_timeout send fuel self payload config s0 =
        (Returns result, s4,
         Sent (submit_request payload) :: rounds job_id poll_interval n
         ++ [Sent (poll_request job_id);
             Printed (Msg_unexpected (Exception_ "Job faulted"))]
         ++ Sent (fetch_request job_id) :: t).
Proof.
  intros Hid Hk Hsend Hrep Hfuel.
  destruct (get_http_resp_sends job_id s3) as (result & s4 & t & Hfetch).
  exists result, s4, t. split; [exact Hfetch |].
  rewrite (execute_with_timeout_eq _ _ _ _ _ _ _ _ has_interval
             (get_job_id_gives _ _ _ _ _ submit_sent Hid)).
  replace fuel with (n + S (fuel - S n))%nat by lia.
  rewrite (poll_job_status_rounds _ _ _ _ _ Hk),
    (poll_job_status_faulted _ _ _ _ _ _ Hsend Hrep), Hfetch.
  cbn. by rewrite <- app_assoc.
Qed.

(** C4, on the code. A poll that fails at the transport level, after
    any number of unfinished polls, is not retried: the handler
    prints and the loop returns. [execute_with_timeout] then sends the
    results request all the same and returns what [get_http_resp]
    returns. *)
Theorem failed_poll_is_followed_by_fetch n s2 rep e s3 fuel :
  submit_gives submitted job_id →
  keeps_polling job_id s1 n s2 →
  send s2 (poll_request job_id) = (rep, s3) →
  poll_fails rep e →
  (n < fuel)%nat →
  ∃ result s4 t,
    get_http_resp send self job_id s3 =
      (Returns result, s4, Sent (fetch_request job_id) :: t)
    ∧ execute_with_timeout send fuel self payload config s0 =
        (Returns result, s4,
         Sent (submit_request payload) :: rounds job_id poll_interval n
         ++ [Sent (poll_request job_id); Printed (poll_message job_id e)]
         ++ Sent (fetch_request job_id) :: t).
Proof.
  intros Hid Hk Hsend Hrep Hfuel.
  destruct (get_http_resp_sends job_id s3) as (result & s4 & t & Hfetch).
  exists result, s4, t. split; [exact Hfetch |].
  rewrite (execute_with_timeout_eq _ _ _ _ _ _ _ _ has_interval
             (get_job_id_gives _ _ _ _ _ submit_sent Hid)).
  replace fuel with (n + S (fuel - S n))%nat by lia.
  rewrite (poll_job_status_rounds _ _ _ _ _ Hk),
    (poll_job_status_fails _ _ _ _ _ _ _ Hsend Hrep), Hfetch.
  cbn. by rewrite <- app_assoc.
Qed.

(** C2, on the code. When the submit request fails, [get_job_id]
    prints and returns [None]; [execute_with_timeout] goes on and
    sends a status request for the job id [None]. *)
Theorem failed_submit_is_still_polled e fuel :
  submit_fails submitted e →
  (0 < fuel)%nat →
  ∃ o s' t,
    execute_with_timeout send fuel self payload config s0 =
      (o, s',
       Sent (submit_request payload) :: Printed (submit_message e)
       :: Sent (poll_request JNull) :: t).
Proof.
  intros Hfail Hfuel.
  rewrite (execute_with_timeout_eq _ _ _ _ _ _ _ _ has_interval
             (get_job_id_fails _ _ _ _ _ submit_sent Hfail)).
  destruct fuel as [| fuel]; [lia |].
  destruct (send s1 (poll_request JNull)) as [rep s2] eqn:Hsend.
  rewrite (poll_job_status_eq _ _ _ _ _ _ Hsend). cbv zeta.
  destruct (decode rep) as [e1 | job]; [|destruct (subscript job "status") as [e1 | st]].
  1,2: destruct (get_http_resp _ _ _ _) as [[o s3] t3]; cbn; eauto.
  destruct (eq_str st "done"); [|destruct (eq_str st "faulted")].
  1,2: destruct (get_http_resp _ _ _ _) as [[o s3] t3]; cbn; eauto.
  unfold after_round.
  destruct (poll_job_status _ _ _ _ _ _) as [[[v | e1 |] s3] t3]; cbn; eauto.
  destruct (get_http_resp _ _ _ _) as [[o s4] t4]; cbn; eauto.
Qed.

(** C3, on the code. When polling never reaches a terminal status,
    [execute_with_timeout] does not come to an end, whatever the
    configuration holds under "timeout", which it never reads: for
    every number of rounds, after that many polls and that many
    waits it is still polling, and it has sent no results request.
    With a positive poll interval it is therefore still polling after
    having slept longer than any given timeout. *)
Theorem polling_never_times_out :
  submit_gives submitted job_id →
  (∀ n, ∃ s', keeps_polling job_id s1 n s') →
  (∀ fuel, ∃ s' t,
     execute_with_timeout send fuel self payload config s0 = (OutOfFuel, s', t)
     ∧ count is_poll t = fuel
     ∧ count is_fetch t = 0%nat
     ∧ slept t = Z.of_nat fuel * poll_interval)
  ∧ (0 < poll_interval →
     ∀ timeout, ∃ fuel s' t,
       execute_with_timeout send fuel self payload config s0 = (OutOfFuel, s', t)
       ∧ timeout < slept t
       ∧ count is_fetch t = 0%nat).
Proof.
  intros Hid Hnever.
  assert (∀ fuel, ∃ s' t,
            execute_with_timeout send fuel self payload config s0 = (OutOfFuel, s', t)
            ∧ count is_poll t = fuel
            ∧ count is_fetch t = 0%nat
            ∧ slept t = Z.of_nat fuel * poll_interval) as Hrun.
  { intros fuel. destruct (Hnever fuel) as [s' Hk].
    exists s', (Sent (submit_request payload) :: rounds job_id poll_interval fuel).
    destruct (rounds_polls job_id poll_interval fuel) as (Hp & Hf & _ & Hs).
    split; [| by repeat split].
    rewrite (execute_with_timeout_eq _ _ _ _ _ _ _ _ has_interval
               (get_job_id_gives _ _ _ _ _ submit_sent Hid)).
    replace fuel with (fuel + 0)%nat at 1 by lia.
    rewrite (poll_job_status_rounds _ _ _ _ _ Hk). cbn. by rewrite app_nil_r. }
  split; [exact Hrun |].
  intros Hpos timeout.
  destruct (Hrun (Z.to_nat (Z.max 0 timeout + 1))) as (s' & t & Hexec & _ & Hfetch & Hslept).
  exists (Z.to_nat (Z.max 0 timeout + 1)), s', t.
  repeat split; trivial. rewrite Hslept. nia.
Qed.
End Run.

End Workflow.

End JobWorkflow.

(** ** The blocking request executor *)

Module Blocking.
Import Internal.

(** The failures [req] has an [except] clause for. *)
Inductive handled : exn → Prop :=
| handled_timeout : handled requests_Timeout
| handled_http status body_text : handled (requests_HTTPError status body_text)
| handled_other : handled requests_RequestException.

Section Req.
Context {St : Type}.
Variable send : St → request → reply * St.
Variables (self : Client) (payload : json) (config : gmap string Z).

Ltac unfold_req :=
  cbv [req mbind mret mthrow prog_bind prog_ret prog_throw try_except
       perform print emit dict_getitem response_json requests_raise_for_status].

(** The request made for a supported method. *)
Definition issued (method : string) (timeout : Z) : request :=
  if String.eqb method "POST" then requests_post self payload timeout
  else requests_get self timeout.

(** C7, as the code has it. For every method other than "POST" and
    "GET", [req] hands nothing to the transport, whose state is left as
    it was, and raises nothing: it prints the unsupported-method line and
    returns [None], the value it also returns on the failures it handles. *)
Theorem unsupported_method_sends_nothing (method : string) (s : St) :
  method ≠ "POST" →
  method ≠ "GET" →
  req send self payload method config s =
    (Returns JNull, s, [Printed (Msg_unsupported_method method)]).
Proof.
  intros Hpost Hget. unfold_req.
  apply String.eqb_neq in Hpost, Hget. rewrite Hpost, Hget. reflexivity.
Qed.

Lemma req_eq method timeout s rep s' :
  method = "POST" ∨ method = "GET" →
  config !! "timeout" = Some timeout →
  send s (issued method timeout) = (rep, s') →
  req send self payload method config s =
    let r := issued method timeout in
    let caught e :=
      match e with
      | requests_Timeout =>
          (Returns JNull, s', [Sent r; Printed (Msg_timeout (BaseUrl (base_url self)))])
      | requests_HTTPError _ body_text =>
          (Returns JNull, s', [Sent r; Printed (Msg_http_error e); Printed (Msg_text body_text)])
      | requests_RequestException =>
          (Returns JNull, s', [Sent r; Printed (Msg_error e)])
      | _ => (Raises e, s', [Sent r])
      end in
    match rep with
    | Fails e => caught e
    | Replies response =>
        if (400 <=? status_code response) && (status_code response <? 600) then
          caught (requests_HTTPError (status_code response) (text response))
        else if status_code response =? 200 then
          match json_body response with
          | inl e => caught e
          | inr body => (Returns body, s', [Sent r])
          end
        else
          (Returns JNull, s', [Sent r; Printed (Msg_error_status (status_code response))])
    end.
Proof.
  intros Hmethod Hcfg Hsend. unfold issued in *. unfold_req.
  destruct Hmethod as [-> | ->]; simpl in *; rewrite Hcfg, Hsend;
    (destruct rep as [e | response]; simpl; [by destruct e |];
     destruct (_ && _); [reflexivity |];
     destruct (status_code response =? 200); [| reflexivity];
     destruct (json_body response) as [e | body]; [by destruct e | reflexivity]).
Qed.

(** C10. For a supported method and a configuration with a timeout:
    a response whose status is a success status other than 200 makes
    [req] print the status and return [None]; the decoded body is
    returned for status 200 only (no response with another status makes
    [req] return anything but [None]); and [None] is also what [req]
    returns on every failure it handles: a timeout, an error status,
    any other error of the HTTP library. *)
Theorem only_status_200_yields_the_body (method : string) (timeout : Z) (s s' : St)
    (rep : reply) :
  method = "POST" ∨ method = "GET" →
  config !! "timeout" = Some timeout →
  send s (issued method timeout) = (rep, s') →
  let result := req send self payload method config s in
  (∀ response, rep = Replies response →
     200 ≤ status_code response < 300 → status_code response ≠ 200 →
     result = (Returns JNull, s',
            [Sent (issued method timeout);
             Printed (Msg_error_status (status_code response))]))
  ∧ (∀ response body, rep = Replies response →
       status_code response = 200 → json_body response = inr body →
       result = (Returns body, s', [Sent (issued method timeout)]))
  ∧ (∀ response, rep = Replies response → status_code response ≠ 200 →
       result.1.1 = Returns JNull)
  ∧ (∀ e, rep = Fails e → handled e → result.1.1 = Returns JNull).
Proof.
  intros Hmethod Hcfg Hsend result. subst result.
  rewrite (req_eq _ _ _ _ _ Hmethod Hcfg Hsend). cbv zeta.
  repeat split.
  - intros response -> Hrange Hne.
    destruct (Z.leb_spec 400 (status_code response)); [lia |]. simpl.
    destruct (Z.eqb_spec (status_code response) 200); [lia | reflexivity].
  - intros response body -> Hst Hbody. rewrite Hst, Hbody. reflexivity.
  - intros response -> Hne.
    destruct (_ && _); [reflexivity |].
    destruct (Z.eqb_spec (status_code response) 200); [lia | reflexivity].
  - intros e -> He. destruct He; reflexivity.
Qed.
End Req.

End Blocking.

(** ** The properties on the scripted transports *)

Module Examples.
Import Utils Internal Mock UtilsFacts JobWorkflow Blocking.

(** A URL of another domain passes the host check for "example.com". *)
Lemma validate_url_accepts_foreign_domain :
  validate_url urlparse_basic "https://notexample.com.evil.net/login" "example.com"
    = Returns tt
  ∧ netloc (urlparse_basic "https://notexample.com.evil.net/login") ≠ "example.com".
Proof.
  split; [| by vm_compute].
  apply (validate_url_host_is_containment urlparse_basic);
    [reflexivity | by vm_compute | by vm_compute |].
  exists "not", ".evil.net". reflexivity.
Defined.

(** [prepare_config] of no keyword at all is the empty dict: neither
    default is in it; and with a timeout alone there is no poll interval. *)
Lemma prepare_config_of_nothing_is_empty :
  prepare_config 50 2 ∅ = ∅
  ∧ prepare_config 50 2 ∅ !! "timeout" ≠ Some 50
  ∧ prepare_config 50 2 ∅ !! "poll_interval" ≠ Some 2
  ∧ prepare_config 50 2 {["timeout" := Some 7]} !! "timeout" = Some 7
  ∧ prepare_config 50 2 {["timeout" := Some 7]} !! "poll_interval" ≠ Some 2.
Proof. repeat split; by vm_compute. Qed.

(** C7 as stated fails on "PUT": the call comes back with a normal return,
    raising no error, and with the very value a 201 reply yields. *)
Lemma unsupported_method_is_no_error :
  req (send three_polls) sync_client payload "PUT" (config 50 10) []
    = (Returns JNull, [], [Printed (Msg_unsupported_method "PUT")])
  ∧ ¬ (∃ e, (req (send three_polls) sync_client payload "PUT" (config 50 10) []).1.1
            = Raises e)
  ∧ (req (send three_polls) sync_client payload "PUT" (config 50 10) []).1.1
    = (req (send answers_201) sync_client payload "POST" (config 50 10) []).1.1.
Proof.
  split; [reflexivity |]. split; [| reflexivity].
  intros [e He]. vm_compute in He. discriminate He.
Qed.

Lemma unsupported_method_PUT :
  req (send three_polls) sync_client payload "PUT" (config 50 10) []
    = (Returns JNull, [], [Printed (Msg_unsupported_method "PUT")]).
Proof.
  apply (unsupported_method_sends_nothing (send three_polls)); by vm_compute.
Defined.

Lemma status_201_yields_None :
  req (send answers_201) sync_client payload "POST" (config 50 10) []
    = (Returns JNull, [],
       [Sent (requests_post sync_client payload 50); Printed (Msg_error_status 201)]).
Proof.
  refine (proj1 (only_status_200_yields_the_body (send answers_201) sync_client payload
                   (config 50 10) "POST" 50 [] [] created_201 _ _ _) _ eq_refl _ _).
  - by left.
  - reflexivity.
  - reflexivity.
  - simpl. lia.
  - simpl. lia.
Defined.

Lemma job_done_after_three_polls_on_script :
  run three_polls 3 (config 50 10) =
    (Returns result_42, [],
     [Sent (submit_request client payload);
      Sent (poll_request client (JStr "abc")); Slept 10;
      Sent (poll_request client (JStr "abc")); Slept 10;
      Sent (poll_request client (JStr "abc"));
      Sent (fetch_request client (JStr "abc"))]).
Proof.
  apply (job_done_after_three_polls (send three_polls) client eq_refl payload (config 50 10)
           10 eq_refl [pending; pending; finished] [pending; pending; finished]
           (job_created "abc") (JStr "abc") eq_refl
           pending [pending; finished] pending [finished] finished [] (ok result_42) []);
    try reflexivity; try lia;
    repeat (econstructor; try reflexivity; try (simpl; lia)).
Defined.

(** The faulted job: its results are requested and returned. *)
Lemma faulted_job_is_still_fetched_on_script :
  ∃ result s4 t,
    get_http_resp (send faulted_job) client (JStr "abc") [] =
      (Returns result, s4, Sent (fetch_request client (JStr "abc")) :: t)
    ∧ run faulted_job 5 (config 50 10) =
        (Returns result, s4,
         Sent (submit_request client payload) :: rounds client (JStr "abc") 10 0
         ++ [Sent (poll_request client (JStr "abc"));
             Printed (Msg_unexpected (Exception_ "Job faulted"))]
         ++ Sent (fetch_request client (JStr "abc")) :: t).
Proof.
  apply (faulted_job_is_still_fetched (send faulted_job) client eq_refl payload
           (config 50 10) 10 eq_refl [faulted] [faulted] (job_created "abc") (JStr "abc")
           eq_refl 0 [faulted] faulted [] 5).
  - repeat (econstructor; try reflexivity; try (simpl; lia)).
  - constructor.
  - reflexivity.
  - repeat (econstructor; try reflexivity; try (simpl; lia)).
  - lia.
Defined.

Example faulted_job_run :
  run faulted_job 5 (config 50 10) =
    (Returns result_42, [],
     [Sent (submit_request client payload);
      Sent (poll_request client (JStr "abc"));
      Printed (Msg_unexpected (Exception_ "Job faulted"));
      Sent (fetch_request client (JStr "abc"))]).
Proof. reflexivity. Qed.

(** The failed submit: a status request and a results request for the
    job id [None] follow it. *)
Lemma failed_submit_is_still_polled_on_script :
  ∃ o s' t,
    run submit_500 5 (config 50 10) =
      (o, s',
       Sent (submit_request client payload)
       :: Printed (submit_message client (aiohttp_ClientResponseError 500))
       :: Sent (poll_request client JNull) :: t).
Proof.
  apply (failed_submit_is_still_polled (send submit_500) client eq_refl payload
           (config 50 10) 10 eq_refl [] [] http_500 eq_refl
           (aiohttp_ClientResponseError 500) 5).
  - apply submit_transport. apply (failure_status {| status_code := 500 |}). simpl. lia.
  - lia.
Defined.

Example submit_500_run :
  run submit_500 5 (config 50 10) =
    (Returns JNull, [],
     [Sent (submit_request client payload);
      Printed (Msg_http_error (aiohttp_ClientResponseError 500));
      Sent (poll_request client JNull);
      Printed (Msg_http_error (aiohttp_ClientResponseError 404));
      Sent (fetch_request client JNull);
      Printed (Msg_http_error (aiohttp_ClientResponseError 404))]).
Proof. reflexivity. Qed.

(** The poll that fails on its second attempt: no third attempt, and the
    results are requested. *)
Lemma failed_poll_is_followed_by_fetch_on_script :
  ∃ result s4 t,
    get_http_resp (send broken_poll) client (JStr "abc") [] =
      (Returns result, s4, Sent (fetch_request client (JStr "abc")) :: t)
    ∧ run broken_poll 5 (config 50 10) =
        (Returns result, s4,
         Sent (submit_request client payload) :: rounds client (JStr "abc") 10 1
         ++ [Sent (poll_request client (JStr "abc"));
             Printed (poll_message client (JStr "abc") aiohttp_ClientConnectionError)]
         ++ Sent (fetch_request client (JStr "abc")) :: t).
Proof.
  apply (failed_poll_is_followed_by_fetch (send broken_poll) client eq_refl payload
           (config 50 10) 10 eq_refl (on_poll broken_poll) (on_poll broken_poll)
           (job_created "abc") (JStr "abc") eq_refl 1
           [Fails aiohttp_ClientConnectionError] (Fails aiohttp_ClientConnectionError)
           aiohttp_ClientConnectionError [] 5).
  - repeat (econstructor; try reflexivity; try (simpl; lia)).
  - eapply keeps_polling_S;
      [ reflexivity
      | repeat (econstructor; try reflexivity; try (simpl; lia))
      | split; reflexivity
      | constructor ].
  - reflexivity.
  - apply poll_transport. constructor.
  - lia.
Defined.

Example broken_poll_run :
  run broken_poll 5 (config 50 10) =
    (Returns result_42, [],
     [Sent (submit_request client payload);
      Sent (poll_request client (JStr "abc")); Slept 10;
      Sent (poll_request client (JStr "abc"));
      Printed (Msg_connection_error aiohttp_ClientConnectionError);
      Sent (fetch_request client (JStr "abc"))]).
Proof. reflexivity. Qed.

(** The job that stays pending. *)
Lemma never_finishes_keeps_polling (n : nat) :
  keeps_polling (send never_finishes) client (JStr "abc") [] n [].
Proof.
  induction n as [| n IH]; [constructor |].
  eapply keeps_polling_S;
    [ reflexivity
    | repeat (econstructor; try reflexivity; try (simpl; lia))
    | split; reflexivity
    | exact IH ].
Qed.

Lemma polling_never_times_out_on_script :
  (∀ fuel, ∃ s' t,
     run never_finishes fuel (config 50 10) = (OutOfFuel, s', t)
     ∧ count is_poll t = fuel
     ∧ count is_fetch t = 0%nat
     ∧ slept t = Z.of_nat fuel * 10)
  ∧ (0 < 10 →
     ∀ timeout, ∃ fuel s' t,
       run never_finishes fuel (config 50 10) = (OutOfFuel, s', t)
       ∧ timeout < slept t
       ∧ count is_fetch t = 0%nat).
Proof.
  apply (polling_never_times_out (send never_finishes) client eq_refl payload
           (config 50 10) 10 eq_refl [] [] (job_created "abc") (JStr "abc") eq_refl).
  - repeat (econstructor; try reflexivity; try (simpl; lia)).
  - intros n. exists []. apply never_finishes_keeps_polling.
Defined.

(** After 1000 rounds against a timeout of 50: 10000 slept, still polling. *)
Example never_finishes_run :
  ∃ t,
    run never_finishes 1000 (config 50 10) = (OutOfFuel, [], t)
    ∧ count is_poll t = 1000%nat
    ∧ count is_fetch t = 0%nat
    ∧ slept t = 10000.
Proof. eexists. split; [vm_compute; reflexivity | by vm_compute]. Qed.

End Examples.

(** * More of the code *)

(** ** The steps of the job workflow, for every transport *)

Module AsyncFacts.
Import Internal JobWorkflow.

(** The requests of a trace, in the order they were sent. *)
Fixpoint sent (t : list event) : list request :=
  match t with
  | [] => []
  | Sent r :: t' => r :: sent t'
  | _ :: t' => sent t'
  end.

Lemma sent_app (t1 t2 : list event) : sent (t1 ++ t2) = sent t1 ++ sent t2.
Proof.
  induction t1 as [| [r | d | m] t1 IH]; simpl; [done | by f_equal | done | done].
Qed.

Section Async.
Context {St : Type}.
Variable send : St → request → reply * St.
Variable self : ClientAsync.

Lemma sent_rounds job_id poll_interval n :
  sent (rounds self job_id poll_interval n) = replicate n (poll_request self job_id).
Proof. induction n as [| n IH]; simpl; [done | by f_equal]. Qed.

(** Without a session object nothing reaches the transport. *)
Lemma get_job_id_no_session payload s :
  session self = false →
  get_job_id send self payload s = (Returns JNull, s, [Printed (Msg_error AttributeError)]).
Proof.
  intros Hno. unfold get_job_id, try_except, session_post.
  cbv [mbind mret mthrow prog_bind prog_ret prog_throw]. by rewrite Hno.
Qed.

Lemma get_http_resp_no_session job_id s :
  session self = false →
  get_http_resp send self job_id s = (Returns JNull, s, [Printed (Msg_error AttributeError)]).
Proof.
  intros Hno. unfold get_http_resp, try_except, session_get.
  cbv [mbind mret mthrow prog_bind prog_ret prog_throw]. by rewrite Hno.
Qed.

Lemma poll_job_status_no_session fuel job_id poll_interval s :
  session self = false →
  poll_job_status send (S fuel) self job_id poll_interval s =
    (Returns JNull, s, [Printed (Msg_unexpected AttributeError)]).
Proof.
  intros Hno. cbn [poll_job_status]. unfold try_except, session_get.
  cbv [mbind mret mthrow prog_bind prog_ret prog_throw]. by rewrite Hno.
Qed.

Lemma get_job_id_returns payload s :
  ∃ v s' t,
    get_job_id send self payload s = (Returns v, s', t)
    ∧ sent t = if session self then [submit_request self payload] else [].
Proof.
  destruct (session self) eqn:Hs.
  - destruct (send s (submit_request self payload)) as [rep s'] eqn:Hsend.
    rewrite (get_job_id_eq send self Hs _ _ _ _ Hsend).
    destruct (decode rep) as [e | data]; [eauto |].
    destruct (subscript data "id"); eauto.
  - rewrite get_job_id_no_session by done. eauto.
Qed.

Lemma get_http_resp_returns job_id s :
  ∃ v s' t,
    get_http_resp send self job_id s = (Returns v, s', t)
    ∧ sent t = if session self then [fetch_request self job_id] else [].
Proof.
  destruct (session self) eqn:Hs.
  - destruct (send s (fetch_request self job_id)) as [rep s'] eqn:Hsend.
    rewrite (get_http_resp_eq send self Hs _ _ _ _ Hsend).
    destruct (decode rep); eauto.
  - rewrite get_http_resp_no_session by done. eauto.
Qed.

(** How a run of the loop looks: it is cut off after [fuel] rounds, or
    it ends with a poll that is followed by no wait; it returns [True]
    when that poll said "done" and [None], after one printed line,
    otherwise. *)
Lemma poll_job_status_cases fuel job_id poll_interval s o s' t :
  session self = true →
  poll_job_status send fuel self job_id poll_interval s = (o, s', t) →
  (o = OutOfFuel ∧ t = rounds self job_id poll_interval fuel)
  ∨ (∃ n tail,
       (n < fuel)%nat
       ∧ t = rounds self job_id poll_interval n ++ Sent (poll_request self job_id) :: tail
       ∧ ((o = Returns (JBool true) ∧ tail = [])
          ∨ (o = Returns JNull ∧ ∃ m, tail = [Printed m]))).
Proof.
  intros Hs. revert s o s' t.
  induction fuel as [| fuel IH]; intros s o s' t Hrun.
  - left. cbn in Hrun. by inversion Hrun.
  - destruct (send s (poll_request self job_id)) as [rep s1] eqn:Hsend.
    rewrite (poll_job_status_eq send self Hs _ _ _ _ _ _ Hsend) in Hrun. cbv zeta in Hrun.
    assert (∀ e, (Returns JNull, s1,
                  [Sent (poll_request self job_id); Printed (poll_message self job_id e)])
                 = (o, s', t) →
                 ∃ n tail, (n < S fuel)%nat
                   ∧ t = rounds self job_id poll_interval n
                         ++ Sent (poll_request self job_id) :: tail
                   ∧ ((o = Returns (JBool true) ∧ tail = [])
                      ∨ (o = Returns JNull ∧ ∃ m, tail = [Printed m]))) as Hfailed.
    { intros e [= <- <- <-]. exists O, [Printed (poll_message self job_id e)].
      split; [lia |]. split; [done |]. right. eauto. }
    destruct (decode rep) as [e | job]; [right; eauto |].
    destruct (subscript job "status") as [e | status]; [right; eauto |].
    destruct (eq_str status "done").
    { right. inversion Hrun; subst. exists O, []. split; [lia |]. split; [done |]. by left. }
    destruct (eq_str status "faulted"); [right; eauto |].
    unfold after_round in Hrun.
    destruct (poll_job_status send fuel self job_id poll_interval s1) as [[o1 s2] t1] eqn:Hrest.
    inversion Hrun; subst.
    destruct (IH _ _ _ _ Hrest) as [[-> ->] | (n & tail & Hn & -> & Htail)].
    + by left.
    + right. exists (S n), tail. split; [lia |]. split; [done | exact Htail].
Qed.



Lemma decode_inl rep e : decode rep = inl e → transport_failure rep e.
Proof.
  destruct rep as [e' | response]; simpl.
  - intros [= ->]. constructor.
  - destruct (Z.leb_spec 400 (status_code response)) as [Hst | Hst].
    + intros [= <-]. by constructor.
    + intros Hbody. by constructor.
Qed.

Lemma decode_inr_answers rep v : decode rep = inr v → answers rep v.
Proof.
  destruct rep as [e' | response]; simpl; [done |].
  destruct (Z.leb_spec 400 (status_code response)) as [Hst | Hst]; [done |].
  intros Hbody. by constructor.
Qed.

(** X1. What [get_job_id] and [get_http_resp] make of the reply to their
    one request, a response of any status and body or an exception of one
    of the [Exception] classes raised by the call, by [raise_for_status],
    by [.json()] or by the subscript: the exception is caught inside the
    step, which prints one line and returns [None]; a good reply is
    returned (its ["id"], its decoded body) with nothing printed. Either
    way the step returns to its caller, having sent that one request. *)
Theorem submit_and_fetch_catch_every_Exception payload job_id s rep1 s1 rep2 s2 :
  session self = true →
  send s (submit_request self payload) = (rep1, s1) →
  send s (fetch_request self job_id) = (rep2, s2) →
  (∃ v t,
     get_job_id send self payload s
       = (Returns v, s1, Sent (submit_request self payload) :: t)
     ∧ ((∃ e, submit_fails rep1 e ∧ v = JNull ∧ t = [Printed (submit_message self e)])
        ∨ (submit_gives rep1 v ∧ t = [])))
  ∧ (∃ v t,
       get_http_resp send self job_id s
         = (Returns v, s2, Sent (fetch_request self job_id) :: t)
       ∧ ((∃ e, transport_failure rep2 e ∧ v = JNull
                ∧ t = [Printed (fetch_message self job_id e)])
          ∨ (answers rep2 v ∧ t = []))).
Proof.
  intros Hs Hsend1 Hsend2. split.
  - rewrite (get_job_id_eq send self Hs _ _ _ _ Hsend1).
    destruct (decode rep1) as [e | data] eqn:Hdec.
    + eexists _, _. split; [done |]. left. exists e.
      repeat split. by apply submit_transport, decode_inl.
    + destruct (subscript data "id") as [e | v] eqn:Hid.
      * eexists _, _. split; [done |]. left. exists e.
        repeat split. eapply submit_no_id; [by apply decode_inr_answers | done].
      * eexists _, _. split; [done |]. right. split; [| done].
        econstructor; [by apply decode_inr_answers | done].
  - rewrite (get_http_resp_eq send self Hs _ _ _ _ Hsend2).
    destruct (decode rep2) as [e | v] eqn:Hdec.
    + eexists _, _. split; [done |]. left. exists e. repeat split. by apply decode_inl.
    + eexists _, _. split; [done |]. right. split; [by apply decode_inr_answers | done].
Qed.

(** X2. The trace of a run of [poll_job_status] that returns is, exactly:
    some rounds, each a status request for the job followed by a wait of
    [poll_interval], then one last status request followed by no wait,
    and after it nothing (the run returns [True]) or one printed line
    (the run returns [None]). There are fewer rounds than [fuel]. *)
Theorem poll_job_status_waits_between_polls fuel job_id poll_interval s v s' t :
  session self = true →
  poll_job_status send fuel self job_id poll_interval s = (Returns v, s', t) →
  ∃ n tail,
    (n < fuel)%nat
    ∧ t = rounds self job_id poll_interval n ++ Sent (poll_request self job_id) :: tail
    ∧ ((v = JBool true ∧ tail = []) ∨ (v = JNull ∧ ∃ m, tail = [Printed m])).
Proof.
  intros Hs Hrun.
  destruct (poll_job_status_cases _ _ _ _ _ _ _ Hs Hrun)
    as [[[=] _] | (n & tail & Hn & -> & Htail)].
  exists n, tail. split; [done |]. split; [done |].
  destruct Htail as [[[= ->] ->] | [[= ->] Hm]]; auto.
Qed.

(** X3. A whole call, step by step. The job id is what [get_job_id]
    returned from the call's first state; the polling runs for that job
    id from the state [get_job_id] left; if it comes to an end,
    [get_http_resp] runs for the same job id from the state the polling
    left, and what it returns is what the call returns. The trace is the
    three traces one after the other, so the requests are, in order: the
    submit request, one or more status requests for that job id, and,
    last, one results request for it. *)
Theorem execute_with_timeout_phases fuel payload config poll_interval s o s' t :
  session self = true →
  config !! "poll_interval" = Some poll_interval →
  execute_with_timeout send fuel self payload config s = (o, s', t) →
  ∃ job_id s1 t1,
    get_job_id send self payload s = (Returns job_id, s1, t1)
    ∧ sent t1 = [submit_request self payload]
    ∧ ((poll_job_status send fuel self job_id poll_interval s1
          = (OutOfFuel, s', rounds self job_id poll_interval fuel)
        ∧ o = OutOfFuel
        ∧ t = t1 ++ rounds self job_id poll_interval fuel
        ∧ sent t = submit_request self payload
                   :: replicate fuel (poll_request self job_id))
       ∨ (∃ r s2 t2 v t3 k,
            poll_job_status send fuel self job_id poll_interval s1 = (Returns r, s2, t2)
            ∧ get_http_resp send self job_id s2 = (Returns v, s', t3)
            ∧ o = Returns v
            ∧ t = t1 ++ t2 ++ t3
            ∧ (1 ≤ k ≤ fuel)%nat
            ∧ sent t2 = replicate k (poll_request self job_id)
            ∧ sent t3 = [fetch_request self job_id]
            ∧ sent t = submit_request self payload
                       :: replicate k (poll_request self job_id)
                       ++ [fetch_request self job_id])).
Proof.
  intros Hs Hcfg Hrun.
  destruct (get_job_id_returns payload s) as (job_id & s1 & t1 & Hsub & Hsent1).
  rewrite Hs in Hsent1.
  rewrite (execute_with_timeout_eq _ _ _ _ _ _ _ _ _ _ Hcfg Hsub) in Hrun.
  exists job_id, s1, t1. split; [done |]. split; [done |].
  destruct (poll_job_status send fuel self job_id poll_interval s1) as [[o2 s2] t2] eqn:Hpoll.
  destruct (poll_job_status_cases _ _ _ _ _ _ _ Hs Hpoll)
    as [[-> ->] | (n & tail & Hn & -> & Htail)].
  - left. inversion Hrun; subst. repeat split.
    by rewrite sent_app, Hsent1, sent_rounds.
  - right.
    destruct (get_http_resp_returns job_id s2) as (v & s3 & t3 & Hfetch & Hsent3).
    rewrite Hs in Hsent3.
    assert (sent (rounds self job_id poll_interval n
                  ++ Sent (poll_request self job_id) :: tail)
            = replicate (S n) (poll_request self job_id)) as Hsent2.
    { rewrite sent_app, sent_rounds, replicate_S_end. f_equal.
      by destruct Htail as [[_ ->] | [_ [m ->]]]. }
    assert (∃ r, o2 = Returns r) as [r ->]
      by (destruct Htail as [[-> _] | [-> _]]; eauto).
    rewrite Hfetch in Hrun. inversion Hrun; subst.
    exists r, s2,
      (rounds self job_id poll_interval n ++ Sent (poll_request self job_id) :: tail),
      v, t3, (S n).
    repeat split; try done; try lia.
    rewrite !sent_app, Hsent1, Hsent3.
    rewrite sent_app in Hsent2. by rewrite Hsent2.
Qed.

(** X4. With a configuration that has no "poll_interval",
    [execute_with_timeout] raises [KeyError] for that key, and it does so
    after the submit step: [get_job_id] has run, so with a session the
    submit request has been sent, and the call's state and trace are the
    ones [get_job_id] left; no status or results request follows. *)
Theorem execute_with_timeout_raises_KeyError_after_submit fuel payload config s :
  config !! "poll_interval" = None →
  ∃ job_id s' t,
    get_job_id send self payload s = (Returns job_id, s', t)
    ∧ execute_with_timeout send fuel self payload config s
      = (Raises (KeyError "poll_interval"), s', t)
    ∧ sent t = if session self then [submit_request self payload] else [].
Proof.
  intros Hcfg.
  destruct (get_job_id_returns payload s) as (job_id & s1 & t1 & Hsub & Hsent1).
  exists job_id, s1, t1. split; [done |]. split; [| done].
  unfold execute_with_timeout, dict_getitem.
  cbv [mbind mret mthrow prog_bind prog_ret prog_throw]. rewrite Hsub, Hcfg.
  by rewrite app_nil_r.
Qed.




Lemma decode_inr rep v :
  decode rep = inr v →
  ∃ response, rep = Replies response ∧ status_code response < 400
              ∧ json_body response = inr v.
Proof.
  destruct rep as [e | response]; simpl; [done |].
  destruct (Z.leb_spec 400 (status_code response)); [done |]. eauto.
Qed.

(** X6. What a call returns, when it is not [None], is the decoded body
    of a response to its results request, one with a status below 400:
    never a body of the submit or of a status response, never anything
    made up by the client. *)
Theorem execute_returns_the_results_body fuel payload config poll_interval s v s' t :
  session self = true →
  config !! "poll_interval" = Some poll_interval →
  execute_with_timeout send fuel self payload config s = (Returns v, s', t) →
  v ≠ JNull →
  ∃ job_id s2 response t0,
    send s2 (fetch_request self job_id) = (Replies response, s')
    ∧ status_code response < 400
    ∧ json_body response = inr v
    ∧ t = t0 ++ [Sent (fetch_request self job_id)].
Proof.
  intros Hs Hcfg Hrun Hv.
  destruct (get_job_id_returns payload s) as (job_id & s1 & t1 & Hsub & _).
  rewrite (execute_with_timeout_eq _ _ _ _ _ _ _ _ _ _ Hcfg Hsub) in Hrun.
  destruct (poll_job_status send fuel self job_id poll_interval s1) as [[o2 s2] t2].
  destruct o2 as [v2 | e |]; [| done | done].
  destruct (send s2 (fetch_request self job_id)) as [rep s3] eqn:Hsend.
  rewrite (get_http_resp_eq send self Hs _ _ _ _ Hsend) in Hrun.
  destruct (decode rep) as [e | body] eqn:Hdec; inversion Hrun; subst; [done |].
  destruct (decode_inr _ _ Hdec) as (response & -> & Hst & Hbody).
  exists job_id, s2, response, (t1 ++ t2). repeat split; try done.
  by rewrite app_assoc.
Qed.

(** X7. A client that has no session object (one that was constructed
    and never entered, or one that was closed) sends nothing: each of the
    three steps catches the failed attribute access and prints, and the
    call returns [None] with the transport untouched. *)
Theorem without_session_nothing_is_sent fuel payload config poll_interval s :
  session self = false →
  config !! "poll_interval" = Some poll_interval →
  execute_with_timeout send (S fuel) self payload config s =
    (Returns JNull, s,
     [Printed (Msg_error AttributeError);
      Printed (Msg_unexpected AttributeError);
      Printed (Msg_error AttributeError)]).
Proof.
  intros Hno Hcfg.
  rewrite (execute_with_timeout_eq _ _ _ _ _ _ _ _ _ _ Hcfg
             (get_job_id_no_session payload s Hno)).
  rewrite poll_job_status_no_session, get_http_resp_no_session by done. reflexivity.
Qed.

End Async.
End AsyncFacts.

Module BlockingFacts.
Import Utils Internal Blocking AsyncFacts UtilsFacts.

Section Req.
Context {St : Type}.
Variable send : St → request → reply * St.
Variables (self : Client) (payload : json).

Lemma req_missing_timeout method config s :
  method = "POST" ∨ method = "GET" →
  config !! "timeout" = None →
  req send self payload method config s = (Raises (KeyError "timeout"), s, []).
Proof.
  intros Hmethod Hcfg. unfold req, try_except, dict_getitem.
  cbv [mbind mret mthrow prog_bind prog_ret prog_throw].
  destruct Hmethod as [-> | ->]; simpl; by rewrite Hcfg.
Qed.

Lemma req_unsupported method config s :
  method ≠ "POST" →
  method ≠ "GET" →
  req send self payload method config s
  = (Returns JNull, s, [Printed (Msg_unsupported_method method)]).
Proof.
  intros Hpost Hget. unfold req, try_except.
  cbv [mbind mret mthrow prog_bind prog_ret prog_throw print emit].
  apply String.eqb_neq in Hpost, Hget. by rewrite Hpost, Hget.
Qed.

Lemma method_cases (method : string) :
  method = "POST" ∨ method = "GET" ∨ (method ≠ "POST" ∧ method ≠ "GET").
Proof.
  destruct (decide (method = "POST")); [by left |].
  destruct (decide (method = "GET")); [by right; left | by right; right].
Qed.

(** What [req] does, case by case, in a form the properties below read
    off: the outcome, the new state and the trace in terms of the reply. *)
Lemma req_sends_issued method config timeout s rep s' :
  method = "POST" ∨ method = "GET" →
  config !! "timeout" = Some timeout →
  send s (issued self payload method timeout) = (rep, s') →
  ∃ o t, req send self payload method config s
         = (o, s', Sent (issued self payload method timeout) :: t)
         ∧ sent t = [].
Proof.
  intros Hmethod Hcfg Hsend.
  rewrite (req_eq send self payload config _ _ _ _ _ Hmethod Hcfg Hsend). cbv zeta.
  destruct rep as [e | response]; [destruct e; eauto |].
  destruct (_ && _); [eauto |].
  destruct (status_code response =? 200); [| eauto].
  destruct (json_body response) as [e | body]; [destruct e; eauto | eauto].
Qed.

(** X8. [req] never retries and never sends anything but the one request
    it was asked for: its trace holds no request at all (and then the
    transport is in the state it was in) or exactly one, the POST or GET
    to the base address with the client's headers and the configured
    timeout. *)
Theorem req_sends_at_most_one_request method config s :
  (sent (req send self payload method config s).2 = []
   ∧ (req send self payload method config s).1.2 = s)
  ∨ (∃ timeout,
       (method = "POST" ∨ method = "GET")
       ∧ config !! "timeout" = Some timeout
       ∧ sent (req send self payload method config s).2
         = [issued self payload method timeout]).
Proof.
  destruct (method_cases method) as [Hm | [Hm | [Hp Hg]]].
  3: { left. by rewrite (req_unsupported _ config s Hp Hg). }
  all: assert (method = "POST" ∨ method = "GET") as Hmethod by auto.
  all: destruct (config !! "timeout") as [timeout |] eqn:Hcfg;
    [ right; exists timeout;
      destruct (send s (issued self payload method timeout)) as [rep s'] eqn:Hsend;
      destruct (req_sends_issued _ _ _ _ _ _ Hmethod Hcfg Hsend) as (o & t & -> & Ht);
      simpl; by rewrite Ht
    | left; by rewrite (req_missing_timeout _ _ _ Hmethod Hcfg) ].
Qed.

(** X9. The timeout of a request is the one [prepare_config] resolved:
    the caller's value, or the default when the caller passed [None]. When
    the caller passed no timeout keyword at all the configuration has no
    "timeout" and [req] raises [KeyError] before anything is sent. *)
Theorem req_uses_resolved_timeout DEFAULT_TIMEOUT DEFAULT_POLL_INTERVAL
    (kwargs : gmap string (option Z)) method s :
  method = "POST" ∨ method = "GET" →
  match kwargs !! "timeout" with
  | None =>
      req send self payload method
        (prepare_config DEFAULT_TIMEOUT DEFAULT_POLL_INTERVAL kwargs) s
      = (Raises (KeyError "timeout"), s, [])
  | Some v =>
      sent (req send self payload method
              (prepare_config DEFAULT_TIMEOUT DEFAULT_POLL_INTERVAL kwargs) s).2
      = [issued self payload method (or_default DEFAULT_TIMEOUT v)]
  end.
Proof.
  intros Hmethod.
  destruct (prepare_config_lookup DEFAULT_TIMEOUT DEFAULT_POLL_INTERVAL kwargs)
    as (Ht & _ & _). cbv zeta in Ht.
  destruct (kwargs !! "timeout") as [v |]; simpl in Ht.
  - destruct (send s (issued self payload method (or_default DEFAULT_TIMEOUT v)))
      as [rep s'] eqn:Hsend.
    destruct (req_sends_issued _ _ _ _ _ _ Hmethod Ht Hsend) as (o & t & -> & Hnone).
    simpl. by rewrite Hnone.
  - by apply req_missing_timeout.
Qed.

(** X10. [req] returns something other than [None] only in one way: the
    method is supported, the configuration has a timeout, the one request
    was answered with status 200, and what is returned is the decoded
    body of that response. *)
Theorem req_returns_a_body_only_from_200 method config s v s' t :
  req send self payload method config s = (Returns v, s', t) →
  v ≠ JNull →
  ∃ timeout response,
    (method = "POST" ∨ method = "GET")
    ∧ config !! "timeout" = Some timeout
    ∧ send s (issued self payload method timeout) = (Replies response, s')
    ∧ status_code response = 200
    ∧ json_body response = inr v
    ∧ t = [Sent (issued self payload method timeout)].
Proof.
  intros Hrun Hv.
  destruct (method_cases method) as [Hm | [Hm | [Hp Hg]]].
  3: { rewrite (req_unsupported _ config s Hp Hg) in Hrun. by inversion Hrun. }
  all: assert (method = "POST" ∨ method = "GET") as Hmethod by auto.
  all: destruct (config !! "timeout") as [timeout |] eqn:Hcfg;
    [| by rewrite (req_missing_timeout _ _ _ Hmethod Hcfg) in Hrun].
  all: destruct (send s (issued self payload method timeout)) as [rep s1] eqn:Hsend.
  all: rewrite (req_eq send self payload config _ _ _ _ _ Hmethod Hcfg Hsend) in Hrun.
  all: cbv zeta in Hrun.
  all: destruct rep as [e | response]; [by destruct e; inversion Hrun |].
  all: destruct (_ && _); [by inversion Hrun |].
  all: destruct (Z.eqb_spec (status_code response) 200) as [Hst |]; [| by inversion Hrun].
  all: destruct (json_body response) as [e | body] eqn:Hbody; [by destruct e; inversion Hrun |].
  all: inversion Hrun; subst; exists timeout, response; by repeat split.
Qed.

End Req.
End BlockingFacts.

Module CredentialsFacts.
Import Internal Credentials.
Local Open Scope nat_scope.

Lemma string_ind3 (P : string → Prop) :
  P EmptyString →
  (∀ a, P (String a EmptyString)) →
  (∀ a b, P (String a (String b EmptyString))) →
  (∀ a b c s, P s → P (String a (String b (String c s)))) →
  ∀ s, P s.
Proof.
  intros H0 H1 H2 H3 s.
  enough (P s ∧ (∀ a, P (String a s)) ∧ (∀ a b, P (String a (String b s)))) by tauto.
  induction s as [| c s (IH0 & IH1 & IH2)]; [by auto |].
  repeat split; auto.
Qed.

Lemma b64_index_char (i : nat) : i < 64 → b64_index (b64_char i) = Some i.
Proof.
  intros Hi. do 64 (destruct i as [| i]; [reflexivity |]). lia.
Qed.

Lemma b64_char_not_pad (i : nat) : i < 64 → is_pad (b64_char i) = false.
Proof.
  intros Hi. do 64 (destruct i as [| i]; [reflexivity |]). lia.
Qed.

Ltac divmod := zify; Z.div_mod_to_equations; lia.

Lemma byte_of_sextets (x : ascii) (n : nat) : n = nat_of_ascii x → ascii_of_nat n = x.
Proof. intros ->. apply ascii_nat_embedding. Qed.

Lemma append_String (c : ascii) (s t : string) : String c s +:+ t = String c (s +:+ t).
Proof. reflexivity. Qed.

Lemma append_Empty (t : string) : EmptyString +:+ t = t.
Proof. reflexivity. Qed.

Lemma b64decode_chunk3 (a b c : ascii) (rest : string) :
  b64decode (chunk3 a b c +:+ rest) =
    tail ← b64decode rest; Some (String a (String b (String c tail))).
Proof.
  pose proof (nat_ascii_bounded a). pose proof (nat_ascii_bounded b).
  pose proof (nat_ascii_bounded c).
  unfold chunk3. cbv zeta. rewrite !append_String, append_Empty. cbn [b64decode].
  rewrite !b64_index_char by divmod. cbn [mbind option_bind].
  rewrite b64_char_not_pad by divmod.
  destruct (b64decode rest) as [tail |]; cbn [mbind option_bind]; [| reflexivity].
  repeat f_equal; apply byte_of_sextets; divmod.
Qed.

Lemma is_pad_pad : is_pad "=" = true.
Proof. reflexivity. Qed.

Lemma b64decode_b64encode (s : string) : b64decode (b64encode s) = Some s.
Proof.
  induction s as [| a | a b | a b c s IH] using string_ind3.
  - reflexivity.
  - pose proof (nat_ascii_bounded a).
    cbn [b64encode]. unfold chunk1. cbv zeta. cbn [b64decode].
    rewrite !b64_index_char by divmod. rewrite !is_pad_pad.
    cbn [mbind option_bind negb].
    repeat f_equal; apply byte_of_sextets; divmod.
  - pose proof (nat_ascii_bounded a). pose proof (nat_ascii_bounded b).
    cbn [b64encode]. unfold chunk2. cbv zeta. cbn [b64decode].
    rewrite !b64_index_char by divmod. rewrite is_pad_pad.
    rewrite b64_char_not_pad by divmod. cbn [mbind option_bind negb].
    repeat f_equal; apply byte_of_sextets; divmod.
  - cbn [b64encode]. rewrite b64decode_chunk3, IH. reflexivity.
Qed.

Lemma length_append (s t : string) : String.length (s +:+ t) = String.length s + String.length t.
Proof. induction s as [| c s IH]; [done |]. rewrite append_String. simpl. lia. Qed.

Lemma length_b64encode (s : string) :
  String.length (b64encode s) = 4 * ((String.length s + 2) / 3).
Proof.
  induction s as [| a | a b | a b c s IH] using string_ind3; try reflexivity.
  cbn [b64encode]. rewrite length_append, IH.
  assert (String.length (chunk3 a b c) = 4) as -> by reflexivity.
  cbn [String.length]. divmod.
Qed.

Fixpoint has_colon (s : string) : bool :=
  match s with
  | EmptyString => false
  | String c s' => Ascii.eqb c ":" || has_colon s'
  end.

Lemma joined_without_colon (u1 u2 p1 p2 : string) :
  has_colon u1 = false →
  has_colon u2 = false →
  u1 +:+ ":" +:+ p1 = u2 +:+ ":" +:+ p2 →
  u1 = u2 ∧ p1 = p2.
Proof.
  revert u2. induction u1 as [| c u1 IH]; intros [| d u2]; simpl;
    rewrite ?append_String, ?append_Empty; intros H1 H2 Heq.
  - by inversion Heq.
  - inversion Heq; subst. by rewrite Ascii.eqb_refl in H2.
  - inversion Heq; subst. by rewrite Ascii.eqb_refl in H1.
  - apply orb_false_iff in H1 as [_ H1], H2 as [_ H2].
    inversion Heq; subst. destruct (IH u2 H1 H2) as [-> ->]; [done | done].
Qed.

(** X11. The token is the standard base64 text of [username:password]:
    decoding it gives that string back, and it is four characters for
    every three bytes of it, rounded up. *)
Theorem token_decodes_to_credentials (c : ApiCredentials) :
  b64decode (get_encoded_credentials c) = Some (username c +:+ ":" +:+ password c)
  ∧ String.length (get_encoded_credentials c)
    = 4 * ((String.length (username c) + 1 + String.length (password c) + 2) / 3).
Proof.
  unfold get_encoded_credentials. split; [apply b64decode_b64encode |].
  rewrite length_b64encode, !length_append. cbn [String.length]. do 2 f_equal. lia.
Qed.

(** X12. Two credentials get the same token exactly when their
    [username:password] strings are the same. So a colon in a username
    makes credentials collide (user [u:p] with password [q], and user [u]
    with password [p:q]), while among usernames without a colon the token
    tells username and password apart. *)
Theorem token_identifies_joined_string (c1 c2 : ApiCredentials) :
  (get_encoded_credentials c1 = get_encoded_credentials c2
   ↔ username c1 +:+ ":" +:+ password c1 = username c2 +:+ ":" +:+ password c2)
  ∧ (∀ u p q,
       get_encoded_credentials {| username := u +:+ ":" +:+ p; password := q |}
       = get_encoded_credentials {| username := u; password := p +:+ ":" +:+ q |})
  ∧ (has_colon (username c1) = false → has_colon (username c2) = false →
     get_encoded_credentials c1 = get_encoded_credentials c2 → c1 = c2).
Proof.
  assert (get_encoded_credentials c1 = get_encoded_credentials c2
          ↔ username c1 +:+ ":" +:+ password c1 = username c2 +:+ ":" +:+ password c2)
    as Hiff.
  { unfold get_encoded_credentials. split; [| by intros ->].
    intros Heq. apply (f_equal b64decode) in Heq.
    rewrite !b64decode_b64encode in Heq. by inversion Heq. }
  split; [exact Hiff |]. split.
  - intros u p q. unfold get_encoded_credentials. simpl. f_equal.
    induction u as [| c u IH]; [done |]. rewrite !append_String. by f_equal.
  - intros H1 H2 Heq. apply Hiff in Heq.
    destruct (joined_without_colon _ _ _ _ H1 H2 Heq) as [Hu Hp].
    destruct c1, c2; simpl in *; by subst.
Qed.

End CredentialsFacts.

Module OptionFacts.
Import Utils UtilsFacts.

Lemma list_in_elem (x : string) (xs : list string) : list_in x xs = true ↔ x ∈ xs.
Proof.
  induction xs as [| y ys IH]; simpl.
  - split; [done | by intros ?%elem_of_nil].
  - rewrite orb_true_iff, IH, String.eqb_eq, elem_of_cons. done.
Qed.

Lemma append_assoc (a b c : string) : (a +:+ b) +:+ c = a +:+ b +:+ c.
Proof. induction a as [| x a IH]; [done |]. rewrite !append_cons. by f_equal. Qed.

(** X13. The optional parameters are checked only when given: [None] and
    the empty string pass whatever the acceptable values are; any other
    domain or locale passes exactly when it is in the list, any other
    render value exactly when it is valid, and a rejection names the
    value. The user agent is not optional: it is checked always. *)
Theorem optional_parameters_are_checked_only_when_given
    (acceptable : list string) (is_valid : string → bool) :
  (∀ v, v = None ∨ v = Some "" →
     check_domain_validity v acceptable = Returns tt
     ∧ check_locale_validity v acceptable = Returns tt
     ∧ check_render_validity is_valid v = Returns tt)
  ∧ (∀ x, x ≠ "" →
       (check_domain_validity (Some x) acceptable
        = if bool_decide (x ∈ acceptable) then Returns tt
          else Raises (ValueError ("Invalid domain parameter: " +:+ x)))
       ∧ (check_locale_validity (Some x) acceptable
          = if bool_decide (x ∈ acceptable) then Returns tt
            else Raises (ValueError ("Invalid locale parameter: " +:+ x)))
       ∧ (check_render_validity is_valid (Some x)
          = if is_valid x then Returns tt
            else Raises (ValueError ("Invalid render parameter: " +:+ x))))
  ∧ (∀ x, check_user_agent_validity is_valid x
          = if is_valid x then Returns tt
            else Raises (ValueError ("Invalid user agent parameter: " +:+ x))).
Proof.
  split; [| split].
  - by intros v [-> | ->].
  - intros x Hx. apply is_empty_false in Hx.
    unfold check_domain_validity, check_locale_validity, check_render_validity.
    rewrite Hx. simpl.
    destruct (list_in x acceptable) eqn:Hin.
    + apply list_in_elem in Hin. rewrite bool_decide_eq_true_2 by done.
      by destruct (is_valid x).
    + rewrite bool_decide_eq_false_2; [by destruct (is_valid x) |].
      intros Hin'%list_in_elem. congruence.
  - intros x. unfold check_user_agent_validity. by destruct (is_valid x).
Qed.

Section ValidateUrl.
Variable urlparse : string → ParseResult.
Hypothesis urlparse_empty : scheme (urlparse "") = "".

Lemma validate_url_accepts input_url host :
  validate_url urlparse input_url host = Returns tt
  ↔ input_url ≠ "" ∧ scheme (urlparse input_url) ≠ "" ∧ netloc (urlparse input_url) ≠ ""
    ∧ str_in host (netloc (urlparse input_url)) = true.
Proof.
  unfold validate_url. rewrite <- !is_empty_false.
  destruct (is_empty input_url); [by split; [| intros (? & _)] |].
  destruct (is_empty (scheme _)); [by split; [| intros (_ & ? & _)] |].
  destruct (is_empty (netloc _)); [by split; [| intros (_ & _ & ? & _)] |].
  destruct (str_in host _); simpl; [done | by split; [| intros (_ & _ & _ & ?)]].
Qed.

(** X14. Accepting a URL for a host means accepting it for every part of
    that host: whatever passes for "api.example.com" passes for
    "example.com", for "e" and for the empty string; and for the empty
    host every URL with a scheme and a network location passes. *)
Theorem validate_url_accepts_weaker_hosts (input_url host : string) :
  (validate_url urlparse input_url host = Returns tt →
   ∀ before part after, host = before +:+ part +:+ after →
     validate_url urlparse input_url part = Returns tt)
  ∧ (validate_url urlparse input_url "" = Returns tt
     ↔ scheme (urlparse input_url) ≠ "" ∧ netloc (urlparse input_url) ≠ "").
Proof.
  split.
  - intros (Hurl & Hscheme & Hnetloc & Hin)%validate_url_accepts before part after ->.
    apply validate_url_accepts. repeat split; try done.
    apply str_in_occurs in Hin as (b & a & Heq). apply str_in_occurs.
    exists (b +:+ before), (after +:+ a). rewrite Heq, !append_assoc. done.
  - rewrite validate_url_accepts. split; [tauto |].
    intros [Hscheme Hnetloc]. repeat split; try done.
    + intros ->. by apply Hscheme.
    + apply str_in_occurs. by exists "", (netloc (urlparse input_url)).
Qed.
End ValidateUrl.

End OptionFacts.

Module SessionFacts.
Import Session.

(** Every open session object is the one the client holds, and every
    session object was made before now. *)
Definition tidy (st : state) : Prop :=
  (∀ i, i ∈ live st → held st = Some i) ∧ (∀ i, i ∈ live st → (i < made st)%nat).

Lemma tidy_initial : tidy initial.
Proof. split; intros i; simpl; set_solver. Qed.

Lemma tidy_new_session st :
  (∀ i, i ∉ live st) →
  (∀ i, i ∈ live st → (i < made st)%nat) →
  tidy (new_session st).
Proof.
  intros Hnone Hmade. split; intros k Hk; simpl in *;
    apply elem_of_union in Hk as [Hk%elem_of_singleton | Hk]; subst; try done.
  - by destruct (Hnone k).
  - lia.
  - by destruct (Hnone k).
Qed.

Lemma tidy_step st o : tidy st → tidy (step st o).
Proof.
  intros [Hheld Hmade]. destruct o as [| | j]; simpl.
  - unfold ensure_session. destruct (held st) as [i |] eqn:Hh.
    + case_bool_decide as Hi.
      * split; [intros k Hk; rewrite Hh; by apply Hheld | done].
      * apply tidy_new_session; [| done]. intros k Hk.
        specialize (Hheld k Hk). congruence.
    + apply tidy_new_session; [| done]. intros k Hk.
      by specialize (Hheld k Hk).
  - unfold close. destruct (held st) as [i |] eqn:Hh.
    + split; intros k [Hk Hne]%elem_of_difference; simpl.
      * specialize (Hheld k Hk). apply not_elem_of_singleton in Hne. congruence.
      * by apply Hmade.
    + split; [intros k Hk; rewrite Hh; by apply Hheld | done].
  - split; intros k [Hk Hne]%elem_of_difference; simpl; auto.
Qed.

Lemma tidy_run ops st : tidy st → tidy (run ops st).
Proof.
  revert st. induction ops as [| o ops IH]; intros st Hst; [done |].
  apply IH, tidy_step, Hst.
Qed.

(** X15. The client never leaks a session: after any sequence of
    [ensure_session], [close] and closings of session objects from
    outside, from construction on, the only session object that can be
    open is the one [self.session] holds; so at most one is open. *)
Theorem at_most_the_held_session_is_open (ops : list op) :
  (∀ i, i ∈ live (run ops initial) → held (run ops initial) = Some i)
  ∧ (∀ i j, i ∈ live (run ops initial) → j ∈ live (run ops initial) → i = j).
Proof.
  destruct (tidy_run ops initial tidy_initial) as [Hheld _].
  split; [exact Hheld |].
  intros i j Hi Hj. apply Hheld in Hi, Hj. congruence.
Qed.

(** X16. Acquisition and release: at any point of a client's life,
    [ensure_session] leaves a usable session, keeping the one at hand when
    it is open (so calling it again changes nothing and makes no second
    session), and [close] leaves no session open and none held (so the
    exit of [async with] releases what the entry acquired, and closing
    twice is closing once). *)
Theorem ensure_session_acquires_close_releases (ops : list op) :
  let st := run ops initial in
  usable (ensure_session st)
  ∧ (usable st → ensure_session st = st)
  ∧ ensure_session (ensure_session st) = ensure_session st
  ∧ (live (close st) = ∅ ∧ held (close st) = None)
  ∧ close (close st) = close st
  ∧ (∀ body, live (aexit (run body (aenter st))) = ∅).
Proof.
  intros st.
  assert (∀ s, usable (ensure_session s)) as Husable.
  { intros s. unfold ensure_session, usable.
    destruct (held s) as [i |] eqn:Hh.
    - case_bool_decide; [by exists i | exists (made s); simpl; set_solver].
    - exists (made s). simpl. set_solver. }
  assert (∀ s, usable s → ensure_session s = s) as Hkeep.
  { intros s (i & Hh & Hi). unfold ensure_session. rewrite Hh.
    by rewrite bool_decide_eq_true_2. }
  assert (∀ s, tidy s → live (close s) = ∅ ∧ held (close s) = None) as Hclose.
  { intros s [Hheld _]. unfold close. destruct (held s) as [i |] eqn:Hh; simpl.
    - split; [| done]. apply set_eq. intros k. split; [| set_solver].
      intros [Hk Hne]%elem_of_difference. specialize (Hheld k Hk). set_solver.
    - split; [| done]. apply set_eq. intros k. split; [| set_solver].
      intros Hk. by specialize (Hheld k Hk). }
  assert (tidy st) as Hst by apply tidy_run, tidy_initial.
  repeat split.
  - apply Husable.
  - apply Hkeep.
  - apply Hkeep, Husable.
  - by apply Hclose.
  - by apply Hclose.
  - unfold close at 1. by destruct (Hclose st Hst) as [_ ->].
  - intros body. apply Hclose, tidy_run, (tidy_step st Ensure), Hst.
Qed.

End SessionFacts.

Module AuthorizationFacts.
Import Internal Credentials Blocking AsyncFacts BlockingFacts CredentialsFacts.

(** X17. Every request that [req] sends for a client made by
    [Client_init] goes to the client's base address, carries the
    configured timeout, and carries the two headers of [__init__]: the
    JSON content type and [Authorization: Basic <token>], where the token
    decodes to [username:password] of the credentials given. *)
Theorem requests_carry_the_credentials {St : Type} (send : St → request → reply * St)
    (url : string) (creds : ApiCredentials) (payload : json) (method : string)
    (config : gmap string Z) (s : St) :
  Forall
    (λ r, r_url r = BaseUrl url
          ∧ Some <$> r_timeout r = Some (config !! "timeout")
          ∧ ∃ token,
              r_headers r = [("Content-Type", "application/json");
                             ("Authorization", "Basic " +:+ token)]
              ∧ b64decode token = Some (username creds +:+ ":" +:+ password creds))
    (sent (req send (Client_init url creds) payload method config s).2).
Proof.
  destruct (method_cases method) as [Hm | [Hm | [Hp Hg]]].
  3: { by rewrite (req_unsupported send _ payload _ config s Hp Hg). }
  all: assert (method = "POST" ∨ method = "GET") as Hmethod by auto.
  all: destruct (config !! "timeout") as [timeout |] eqn:Hcfg;
    [| by rewrite (req_missing_timeout send _ payload _ _ s Hmethod Hcfg)].
  all: destruct (send s (issued (Client_init url creds) payload method timeout))
         as [rep s'] eqn:Hsend.
  all: destruct (req_sends_issued send _ payload _ _ _ _ _ _ Hmethod Hcfg Hsend)
         as (o & t & -> & Ht).
  all: simpl; rewrite Ht; constructor; [| constructor].
  all: unfold issued; destruct Hmethod as [-> | ->]; simpl.
  all: repeat split; try done.
  all: exists (get_encoded_credentials creds); split; [done |].
  all: apply b64decode_b64encode.
Qed.

End AuthorizationFacts.

Module MoreExamples.
Import Utils Internal Credentials Session Mock.
Import UtilsFacts JobWorkflow AsyncFacts BlockingFacts OptionFacts.

Definition someone : ApiCredentials := {| username := "user"; password := "pass" |}.

Example someone_token : get_encoded_credentials someone = "dXNlcjpwYXNz".
Proof. reflexivity. Qed.

(** A submit answered with status 500 and a results request answered
    with a payload, from the same state. *)
Lemma submit_and_fetch_catch_every_Exception_on_script :
  (∃ v t,
     get_job_id (send submit_500) client payload []
       = (Returns v, [], Sent (submit_request client payload) :: t)
     ∧ ((∃ e, submit_fails http_500 e ∧ v = JNull
              ∧ t = [Printed (submit_message client e)])
        ∨ (submit_gives http_500 v ∧ t = [])))
  ∧ (∃ v t,
       get_http_resp (send submit_500) client (JStr "abc") []
         = (Returns v, [], Sent (fetch_request client (JStr "abc")) :: t)
       ∧ ((∃ e, transport_failure http_404 e ∧ v = JNull
                ∧ t = [Printed (fetch_message client (JStr "abc") e)])
          ∨ (answers http_404 v ∧ t = []))).
Proof.
  apply (submit_and_fetch_catch_every_Exception (send submit_500) client payload
           (JStr "abc") [] http_500 [] http_404 []); reflexivity.
Defined.

(** Three polls: two rounds with a wait of 10, then the third poll and
    nothing after it. *)
Lemma poll_job_status_waits_between_polls_on_script :
  ∃ n tail,
    (n < 5)%nat
    ∧ [Sent (poll_request client (JStr "abc")); Slept 10;
       Sent (poll_request client (JStr "abc")); Slept 10;
       Sent (poll_request client (JStr "abc"))]
      = rounds client (JStr "abc") 10 n ++ Sent (poll_request client (JStr "abc")) :: tail
    ∧ ((JBool true = JBool true ∧ tail = [])
       ∨ (JBool true = JNull ∧ ∃ m, tail = [Printed m])).
Proof.
  apply (poll_job_status_waits_between_polls (send three_polls) client 5 (JStr "abc") 10
           (on_poll three_polls) (JBool true) []); reflexivity.
Defined.

Lemma execute_with_timeout_phases_on_script :
  ∃ job_id s1 t1,
    get_job_id (send three_polls) client payload (on_poll three_polls)
      = (Returns job_id, s1, t1)
    ∧ sent t1 = [submit_request client payload]
    ∧ ((poll_job_status (send three_polls) 5 client job_id 10 s1
          = (OutOfFuel, [], rounds client job_id 10 5)
        ∧ Returns result_42 = OutOfFuel
        ∧ (run three_polls 5 (config 50 10)).2 = t1 ++ rounds client job_id 10 5
        ∧ sent (run three_polls 5 (config 50 10)).2
          = submit_request client payload :: replicate 5 (poll_request client job_id))
       ∨ (∃ r s2 t2 v t3 k,
            poll_job_status (send three_polls) 5 client job_id 10 s1 = (Returns r, s2, t2)
            ∧ get_http_resp (send three_polls) client job_id s2 = (Returns v, [], t3)
            ∧ Returns result_42 = Returns v
            ∧ (run three_polls 5 (config 50 10)).2 = t1 ++ t2 ++ t3
            ∧ (1 ≤ k ≤ 5)%nat
            ∧ sent t2 = replicate k (poll_request client job_id)
            ∧ sent t3 = [fetch_request client job_id]
            ∧ sent (run three_polls 5 (config 50 10)).2
              = submit_request client payload
                :: replicate k (poll_request client job_id)
                ++ [fetch_request client job_id])).
Proof.
  apply (execute_with_timeout_phases (send three_polls) client 5 payload (config 50 10) 10
           (on_poll three_polls) (Returns result_42) []); reflexivity.
Defined.

(** A configuration resolved from a timeout alone has no poll interval. *)
Lemma execute_with_timeout_raises_KeyError_after_submit_on_script :
  ∃ job_id s' t,
    get_job_id (send three_polls) client payload (on_poll three_polls)
      = (Returns job_id, s', t)
    ∧ execute_with_timeout (send three_polls) 5 client payload
        (prepare_config 50 2 {["timeout" := Some 7]}) (on_poll three_polls)
      = (Raises (KeyError "poll_interval"), s', t)
    ∧ sent t = if session client then [submit_request client payload] else [].
Proof.
  apply (execute_with_timeout_raises_KeyError_after_submit (send three_polls) client 5
           payload (prepare_config 50 2 {["timeout" := Some 7]}) (on_poll three_polls)).
  reflexivity.
Defined.

(** A client fresh from its constructor, used without a session. *)
Lemma without_session_nothing_is_sent_on_fresh_client :
  execute_with_timeout (send three_polls) 1
    (ClientAsync_init "https://realtime.example/v1/queries" someone)
    payload (config 50 10) (on_poll three_polls)
  = (Returns JNull, on_poll three_polls,
     [Printed (Msg_error AttributeError);
      Printed (Msg_unexpected AttributeError);
      Printed (Msg_error AttributeError)]).
Proof.
  apply (without_session_nothing_is_sent (send three_polls)
           (ClientAsync_init "https://realtime.example/v1/queries" someone)
           0 payload (config 50 10) 10); reflexivity.
Defined.

Lemma req_uses_resolved_timeout_on_script :
  sent (req (send three_polls) sync_client payload "POST"
          (prepare_config 50 2 {["timeout" := None]}) []).2
  = [Blocking.issued sync_client payload "POST" 50].
Proof.
  exact (req_uses_resolved_timeout (send three_polls) sync_client payload 50 2
           {["timeout" := None]} "POST" [] (or_introl eq_refl)).
Defined.

Lemma req_returns_a_body_only_from_200_on_script :
  ∃ timeout response,
    ("POST" = "POST" ∨ "POST" = "GET")
    ∧ config 50 10 !! "timeout" = Some timeout
    ∧ send three_polls [] (Blocking.issued sync_client payload "POST" timeout)
      = (Replies response, [])
    ∧ status_code response = 200
    ∧ json_body response = inr (JObj [("id", JStr "abc")])
    ∧ [Sent (requests_post sync_client payload 50)]
      = [Sent (Blocking.issued sync_client payload "POST" timeout)].
Proof.
  apply (req_returns_a_body_only_from_200 (send three_polls) sync_client payload "POST"
           (config 50 10) [] (JObj [("id", JStr "abc")]) []
           [Sent (requests_post sync_client payload 50)]); [reflexivity | done].
Defined.

Lemma validate_url_accepts_weaker_hosts_on_example :
  (validate_url urlparse_basic "https://api.example.com/v1" "api.example.com" = Returns tt →
   ∀ before part after, "api.example.com" = before +:+ part +:+ after →
     validate_url urlparse_basic "https://api.example.com/v1" part = Returns tt)
  ∧ (validate_url urlparse_basic "https://api.example.com/v1" "" = Returns tt
     ↔ scheme (urlparse_basic "https://api.example.com/v1") ≠ ""
       ∧ netloc (urlparse_basic "https://api.example.com/v1") ≠ "").
Proof.
  apply (validate_url_accepts_weaker_hosts urlparse_basic eq_refl).
Defined.

Lemma execute_returns_the_results_body_on_script :
  ∃ job_id s2 response t0,
    send three_polls s2 (fetch_request client job_id) = (Replies response, [])
    ∧ status_code response < 400
    ∧ json_body response = inr result_42
    ∧ (run three_polls 5 (config 50 10)).2 = t0 ++ [Sent (fetch_request client job_id)].
Proof.
  apply (execute_returns_the_results_body (send three_polls) client 5 payload
           (config 50 10) 10 (on_poll three_polls) result_42 []); [reflexivity .. | done].
Defined.


End MoreExamples.
